(** * AI news aggregator: the filtering, ranking and digest pipeline

    A shallow embedding of [utils/filters.py] ([NewsFilter]), of the
    keyword lists of [utils/config.py] ([Config]) and of
    [AINewsAggregator.process_news] from [main.py], followed by the
    properties of the specification checked against them. *)

From Stdlib Require Import ZArith NArith Lia String Ascii DecimalString Sorted Permutation.
From stdpp Require Import base list gmap sets.

Local Open Scope N_scope.

(** ** Python strings

    A Python [str] is a sequence of Unicode code points. *)

Definition str := list N.

(** String literals are written as in the source and decoded from UTF-8. *)

Fixpoint bytes (s : string) : list N :=
  match s with
  | EmptyString => []
  | String a r => N_of_ascii a :: bytes r
  end.

Fixpoint utf8_decode (bs : list N) : str :=
  match bs with
  | [] => []
  | b0 :: r0 =>
    if b0 <? 128 then b0 :: utf8_decode r0
    else match r0 with
    | [] => []
    | b1 :: r1 =>
      if b0 <? 224 then ((b0 - 192) * 64 + (b1 - 128)) :: utf8_decode r1
      else match r1 with
      | [] => []
      | b2 :: r2 =>
        if b0 <? 240
        then ((b0 - 224) * 4096 + (b1 - 128) * 64 + (b2 - 128)) :: utf8_decode r2
        else match r2 with
        | [] => []
        | b3 :: r3 =>
          ((b0 - 240) * 262144 + (b1 - 128) * 4096 + (b2 - 128) * 64 + (b3 - 128))
            :: utf8_decode r3
        end
      end
    end
  end.

Definition py (s : string) : str := utf8_decode (bytes s).

(** [needle in hay] *)

Fixpoint startswith (p s : str) : bool :=
  match p, s with
  | [], _ => true
  | _ :: _, [] => false
  | x :: p', y :: s' => (x =? y) && startswith p' s'
  end.

Fixpoint contains (needle hay : str) : bool :=
  startswith needle hay ||
  match hay with
  | [] => false
  | _ :: t => contains needle t
  end.

(** What [in] decides: the needle occurs as a contiguous run of the
    haystack. *)

Definition substring_of (needle hay : str) : Prop :=
  ∃ pre post, hay = pre ++ needle ++ post.

(** ** News items

    An item is a [dict]; a field is [None] here when its key is absent.
    [published_date] alone is also met with the value [None] under its
    key, which is kept apart from an absent key. *)

Record datetime := mk_datetime {
  wall : Z;               (* microseconds on the wall clock since 0001-01-01 00:00 *)
  utcoffset : option Z    (* [tzinfo]: [None] when naive, else its offset in microseconds *)
}.

Inductive field (A : Type) :=
  | Absent
  | Null
  | Present (a : A).
Arguments Absent {A}.
Arguments Null {A}.
Arguments Present {A} a.

Record NewsItem := mk_news {
  title : option str;
  url : option str;
  source : option str;
  published_date : field datetime;
  description : option str;
  keywords : option (list str);
  content_type : option str;
  duration : option Z;
  relevance_score : option Z
}.

(** [news['relevance_score'] = score] *)
Definition set_relevance_score (news : NewsItem) (score : Z) : NewsItem :=
  {| title := title news; url := url news; source := source news;
     published_date := published_date news; description := description news;
     keywords := keywords news; content_type := content_type news;
     duration := duration news; relevance_score := Some score |}.

(** ** Exceptions *)

Inductive exn := TypeError | OverflowError.

Inductive result (A : Type) :=
  | Ok (a : A)
  | Raise (e : exn).
Arguments Ok {A} a.
Arguments Raise {A} e.

#[export] Instance result_ret : MRet result := λ A a, Ok a.
#[export] Instance result_bind : MBind result :=
  λ A B f m, match m with Ok a => f a | Raise e => Raise e end.
#[export] Instance result_fmap : FMap result :=
  λ A B f m, match m with Ok a => Ok (f a) | Raise e => Raise e end.

(** What a function that returns or raises [ValueError] does. *)
Inductive outcome (A : Type) :=
  | Returned (a : A)
  | ValueError (message : str).
Arguments Returned {A} a.
Arguments ValueError {A} message.

(** ** Timestamps

    Wall clock readings and offsets are counts of microseconds, a wall
    clock counting from the first instant of the year 1.  The range of
    [datetime] and of [timedelta] is checked where the code computes a new
    value, in [datetime_sub] and [timedelta_of_hours]. *)

Definition datetime_min : datetime := {| wall := 0; utcoffset := None |}.

(** [d.replace(tzinfo=timezone.utc)] keeps the wall clock reading. *)
Definition replace_tzinfo_utc (d : datetime) : datetime :=
  {| wall := wall d; utcoffset := Some 0%Z |}.

(** Order comparisons of two [datetime]s: two naive ones compare their
    wall clocks, two aware ones their UTC instants, and one of each is a
    [TypeError]. *)
Definition datetime_cmp (op : Z → Z → bool) (a b : datetime) : result bool :=
  match utcoffset a, utcoffset b with
  | None, None => Ok (op (wall a) (wall b))
  | Some oa, Some ob => Ok (op (wall a - oa)%Z (wall b - ob)%Z)
  | _, _ => Raise TypeError
  end.

Definition datetime_lt := datetime_cmp Z.ltb.
Definition datetime_ge := datetime_cmp Z.geb.

Definition microseconds_per_hour : Z := 3600000000.

(** [datetime.max], the last microsecond of the year 9999, as a wall
    clock reading. *)
Definition datetime_max_wall : Z := 315537897599999999.

(** [timedelta.max.days] *)
Definition timedelta_max_days : Z := 999999999.

(** [timedelta(hours=hours)] as a count of microseconds.  The constructor
    normalises to days, seconds and microseconds, the days rounded down,
    and raises [OverflowError] when the days leave the range of
    [timedelta]. *)
Definition timedelta_of_hours (hours : Z) : result Z :=
  let days := ((hours * 3600) `div` 86400)%Z in
  if bool_decide (- timedelta_max_days ≤ days ≤ timedelta_max_days)%Z
  then Ok (hours * microseconds_per_hour)%Z
  else Raise OverflowError.

(** [d - delta]: the offset is kept, and a wall clock reading outside the
    years 1 to 9999 is an [OverflowError]. *)
Definition datetime_sub (d : datetime) (delta : Z) : result datetime :=
  let w := (wall d - delta)%Z in
  if bool_decide (0 ≤ w ≤ datetime_max_wall)%Z
  then Ok {| wall := w; utcoffset := utcoffset d |}
  else Raise OverflowError.

(** ** Character classes and case mapping

    The ASCII part of the Unicode tables is written out.  What the Unicode
    database says about the code points from 128 on is left open: the
    three tables below stand for [str.lower], [str.isalnum] and
    [str.isspace] on those code points, and every result of this file
    holds whatever they are. *)

Definition in_range (lo hi c : N) : bool := (lo <=? c) && (c <=? hi).

Section Filters.

Variable unicode_lower : N → list N.
Variable unicode_alnum : N → bool.
Variable unicode_space : N → bool.

Definition lower_char (c : N) : list N :=
  if c <? 128 then
    (if in_range 65 90 c then [c + 32] else [c])
  else unicode_lower c.

(** [s.lower()], code point by code point.  (Of the two lower case forms
    of the Greek capital sigma, between which Python chooses by the
    neighbours, the table gives one; both are code points above 127.) *)
Definition lower (s : str) : str := flat_map lower_char s.

(** [\s] of [re] on a [str] pattern, which is also what [str.strip] removes. *)
Definition is_space (c : N) : bool :=
  if c <? 128 then in_range 9 13 c || in_range 28 32 c
  else unicode_space c.

(** [\w] of [re] on a [str] pattern: alphanumeric or underscore. *)
Definition is_word (c : N) : bool :=
  if c <? 128 then
    in_range 48 57 c || in_range 65 90 c || in_range 97 122 c || (c =? 95)
  else unicode_alnum c.

Fixpoint lstrip (s : str) : str :=
  match s with
  | [] => []
  | c :: t => if is_space c then lstrip t else s
  end.

Definition rstrip (s : str) : str := rev (lstrip (rev s)).

(** [s.strip()] *)
Definition strip (s : str) : str := rstrip (lstrip s).

(** ** Configuration ([Config]) *)

Definition AI_KEYWORDS : list str :=
  [ py "AI news"; py "artificial intelligence"; py "ChatGPT"; py "OpenAI";
    py "Claude"; py "Anthropic"; py "Gemini AI"; py "DeepMind"; py "Sora";
    py "Stable Diffusion"; py "Midjourney"; py "Runway AI"; py "text-to-video";
    py "text-to-image"; py "LLM"; py "AI"; py "OpenAI"; py "Anthropic";
    py "Google"; py "DeepMind";
    py "Microsoft"; py "Meta"; py "NVIDIA"; py "Adobe"; py "Stability AI";
    py "Runway"; py "Jasper AI" ].

Definition EXCLUDE_KEYWORDS : list str :=
  [ py "paper"; py "research paper"; py "dataset"; py "loss function";
    py "training method"; py "backpropagation"; py "gradient descent";
    py "model weights"; py "benchmark"; py "arxiv.org" ].

(** ** Keyword matcher *)

Definition contains_ai_keywords (text : option str) : bool :=
  match text with
  | None | Some [] => false
  | Some text =>
    let text_lower := lower text in
    let has_ai_keywords :=
      existsb (λ keyword, contains (lower keyword) text_lower) AI_KEYWORDS in
    let has_exclude_keywords :=
      existsb (λ keyword, contains (lower keyword) text_lower) EXCLUDE_KEYWORDS in
    has_ai_keywords && negb has_exclude_keywords
  end.

Definition extract_keywords_from_text (text : option str) : list str :=
  match text with
  | None | Some [] => []
  | Some text =>
    let text_lower := lower text in
    fold_left
      (λ found_keywords keyword,
         if contains (lower keyword) text_lower
         then found_keywords ++ [keyword]
         else found_keywords)
      AI_KEYWORDS []
  end.

(** ** Language filter *)

Definition is_cyrillic (c : N) : bool := in_range 1072 1103 c || (c =? 1105).
Definition is_latin (c : N) : bool := in_range 97 122 c.

(** The punctuation that the character class of [unwanted_chars] lets
    through besides [\w] and [\s]. *)
Definition allowed_punctuation : str :=
  py "-.,!?()[]" ++ [34] ++ py ":;@#$%^&*+=<>/\|`~".

Definition is_unwanted (c : N) : bool :=
  negb (is_word c || is_space c || bool_decide (c ∈ allowed_punctuation)).

(** [len(re.findall(r'[...]', s))] for a one-character class. *)
Definition count_matching (p : N → bool) (s : str) : nat :=
  length (List.filter p s).

(** [c / total > 0.8].  The quotient of two integers is correctly rounded
    and [0.8] is the double nearest to 4/5, so for totals below 2^50 the
    comparison of the doubles is the comparison of the exact fractions. *)
Definition ratio_above_080 (c total : nat) : bool :=
  (4 * total <? 5 * c)%nat.

Definition is_english_or_russian (text : option str) : bool :=
  match text with
  | None | Some [] => false
  | Some text =>
    let cyrillic_count := count_matching is_cyrillic (lower text) in
    let latin_count := count_matching is_latin (lower text) in
    let unwanted_chars := count_matching is_unwanted text in
    let total_letters := (cyrillic_count + latin_count)%nat in
    if (total_letters =? 0)%nat then false
    else if (0 <? unwanted_chars)%nat then false
    else
      let cyrillic_ratio := ratio_above_080 cyrillic_count total_letters in
      let latin_ratio := ratio_above_080 latin_count total_letters in
      (3 <=? total_letters)%nat && (cyrillic_ratio || latin_ratio)
  end.

(** ** Relevance scorer *)

Definition high_priority : list str :=
  [ py "chatgpt"; py "openai"; py "claude"; py "gemini"; py "sora";
    py "gpt-4"; py "gpt-5" ].
Definition medium_priority : list str :=
  [ py "ai"; py "artificial intelligence"; py "stable diffusion";
    py "midjourney" ].
Definition low_priority : list str :=
  [ py "machine learning"; py "deep learning"; py "neural network" ].

(** One [for keyword in tier: if keyword in text: score += weight] loop. *)
Definition add_tier (weight : Z) (tier : list str) (text : str) (score : Z) : Z :=
  fold_left
    (λ score keyword, if contains keyword text then (score + weight)%Z else score)
    tier score.

Definition calculate_relevance_score
    (title description : str) (keywords : option (list str)) : Z :=
  match title with
  | [] => 0%Z
  | _ :: _ =>
    let score := 0%Z in
    let text := lower (title ++ py " " ++ description) in
    let score := add_tier 20 high_priority text score in
    let score := add_tier 10 medium_priority text score in
    let score := add_tier 5 low_priority text score in
    let score :=
      match keywords with
      | Some ((_ :: _) as keywords) =>
        (score + Z.min (Z.of_nat (length keywords) * 5) 20)%Z
      | _ => score
      end in
    Z.min score 100
  end.

(** ** Filter and rank *)

(** [list.sort(key=..., reverse=True)]: the sort is stable, and with
    [reverse=True] items with equal keys keep their order too.  An item
    goes in front of the first one whose key does not exceed its own. *)
Fixpoint insert_desc {A} (key : A → Z) (x : A) (l : list A) : list A :=
  match l with
  | [] => [x]
  | y :: t =>
    if (key x <? key y)%Z then y :: insert_desc key x t else x :: y :: t
  end.

Fixpoint sort_desc {A} (key : A → Z) (l : list A) : list A :=
  match l with
  | [] => []
  | x :: t => insert_desc key x (sort_desc key t)
  end.

Definition sort_key (x : NewsItem) : Z := default 0%Z (relevance_score x).

(** The body of the loop over [news_list]. *)
Definition filter_news_step (min_score : Z)
    (filtered_news : list NewsItem) (news : NewsItem) : list NewsItem :=
  let title := default [] (title news) in
  let description := default [] (description news) in
  let keywords := Some (default [] (keywords news)) in
  if negb (is_english_or_russian (Some title)) then filtered_news
  else
    let score := calculate_relevance_score title description keywords in
    if (min_score <=? score)%Z
    then filtered_news ++ [set_relevance_score news score]
    else filtered_news.

Definition filter_news_by_relevance
    (news_list : list NewsItem) (min_score : Z) : list NewsItem :=
  let filtered_news := fold_left (filter_news_step min_score) news_list [] in
  sort_desc sort_key filtered_news.

(** ** Deduplicator *)

Definition dedup_state : Type := gset str * gset str * list NewsItem.

Definition remove_duplicates_step (st : dedup_state) (news : NewsItem) : dedup_state :=
  let '(seen_titles, seen_urls, unique_news) := st in
  let title := strip (lower (default [] (title news))) in
  let url := default [] (url news) in
  if bool_decide (title ∉ seen_titles) && bool_decide (url ∉ seen_urls)
  then ({[title]} ∪ seen_titles, {[url]} ∪ seen_urls, unique_news ++ [news])
  else st.

Definition remove_duplicates (news_list : list NewsItem) : list NewsItem :=
  (fold_left remove_duplicates_step news_list (∅, ∅, [])).2.

(** ** Recency filter

    [now_utc] is the wall clock reading of [datetime.now(timezone.utc)]. *)
Definition is_recent_news
    (now_utc : Z) (published_date : option datetime) (hours : Z) : result bool :=
  match published_date with
  | None => Ok false
  | Some published_date =>
    let now := {| wall := now_utc; utcoffset := Some 0%Z |} in
    window ← timedelta_of_hours hours;
    cutoff_time ← datetime_sub now window;
    let published_date :=
      match utcoffset published_date with
      | None => replace_tzinfo_utc published_date
      | Some _ => published_date
      end in
    datetime_ge published_date cutoff_time
  end.

(** ** Digest formatter *)

Definition NO_NEWS_MESSAGE : str :=
  py "📰 *AI News Digest*" ++ [10; 10] ++
  py "Новостей не найдено за последние 24 часа.".

(** [l[:stop]] *)
Definition slice_to {A} (l : list A) (stop : Z) : list A :=
  if (stop <? 0)%Z
  then take (Z.to_nat (Z.of_nat (length l) + stop)) l
  else take (Z.to_nat stop) l.

(** [sep.join(parts)] *)
Fixpoint join (sep : str) (parts : list str) : str :=
  match parts with
  | [] => []
  | [p] => p
  | p :: rest => p ++ sep ++ join sep rest
  end.

(** [str(n)] for an [int] *)
Definition str_of_int (n : Z) : str :=
  bytes (DecimalString.NilEmpty.string_of_int (Z.to_int n)).

Definition emoji_map : gmap str str :=
  list_to_map
    [ (py "image", py "🖼️"); (py "video", py "🎥");
      (py "text", py "📝"); (py "link", py "🔗") ].

Definition format_header (current_date : str) : str :=
  py "📰 <b>AI News Digest — " ++ current_date ++ py "</b>" ++ [10; 10].

Definition format_news_item (news : NewsItem) : str :=
  let title := default (py "Без заголовка") (title news) in
  let url := default (py "#") (url news) in
  let source := default (py "Неизвестный источник") (source news) in
  let content_type := default [] (content_type news) in
  let duration := default 0%Z (duration news) in
  let content_emoji :=
    if contains (py "Reddit") source && negb (bool_decide (content_type = []))
    then default (py "📄") (emoji_map !! content_type)
    else [] in
  let duration_info :=
    if contains (py "YouTube") source && (0 <? duration)%Z then
      let minutes := (duration / 60)%Z in
      let seconds := (duration mod 60)%Z in
      if (0 <? minutes)%Z
      then py " (" ++ str_of_int minutes ++ py "м " ++ str_of_int seconds ++ py "с)"
      else py " (" ++ str_of_int seconds ++ py "с)"
    else [] in
  match content_emoji with
  | _ :: _ =>
    py "🔹 " ++ content_emoji ++ py " <a href='" ++ url ++ py "'>" ++ title
      ++ py "</a>" ++ duration_info ++ [10] ++ py "Источник: " ++ source
  | [] =>
    py "🔹 <a href='" ++ url ++ py "'>" ++ title
      ++ py "</a>" ++ duration_info ++ [10] ++ py "Источник: " ++ source
  end.

(** [current_date] is [datetime.now(timezone.utc).strftime("%d %B %Y")]. *)
Definition format_news_for_telegram
    (current_date : str) (news_list : list NewsItem) (max_items : Z) : str :=
  match news_list with
  | [] => NO_NEWS_MESSAGE
  | _ :: _ =>
    let news_list := slice_to news_list max_items in
    let header := format_header current_date in
    let news_items := map format_news_item news_list in
    header ++ join [10] news_items
  end.

(** ** Orchestrator *)

(** The key of the sort by date: [x.get('published_date', datetime.min)],
    where [None] is the value [None] found under the key. *)
Definition date_key (x : NewsItem) : option datetime :=
  match published_date x with
  | Absent => Some datetime_min
  | Null => None
  | Present d => Some d
  end.

(** [a < b] on two such keys; [None] is not ordered against anything. *)
Definition date_key_lt (a b : option datetime) : result bool :=
  match a, b with
  | Some a, Some b => datetime_lt a b
  | _, _ => Raise TypeError
  end.

(** [sort_desc] with a comparison of keys that can raise. *)
Fixpoint insert_desc_by {A K} (lt : K → K → result bool) (key : A → K)
    (x : A) (l : list A) : result (list A) :=
  match l with
  | [] => Ok [x]
  | y :: t =>
    b ← lt (key x) (key y);
    if (b : bool) then cons y <$> insert_desc_by lt key x t else Ok (x :: y :: t)
  end.

Fixpoint sort_desc_by {A K} (lt : K → K → result bool) (key : A → K)
    (l : list A) : result (list A) :=
  match l with
  | [] => Ok []
  | x :: t => sort_desc_by lt key t ≫= insert_desc_by lt key x
  end.

(** The log lines of [process_news] are left out. *)
Definition process_news (news_list : list NewsItem) : result (list NewsItem) :=
  let unique_news := remove_duplicates news_list in
  let relevant_news := filter_news_by_relevance unique_news 10 in
  sort_desc_by date_key_lt date_key relevant_news.

(** ** Text cleaning ([NewsFilter.clean_text], [NewsFilter.is_retweet]) *)

(** [re.sub(r'\s+', ' ', s)]: every maximal run of white space becomes one
    space.  [in_run] says that the character before was white space. *)
Fixpoint collapse_whitespace (in_run : bool) (s : str) : str :=
  match s with
  | [] => []
  | c :: t =>
    if is_space c
    then (if in_run then collapse_whitespace true t
          else 32 :: collapse_whitespace true t)
    else c :: collapse_whitespace false t
  end.

Definition clean_text (text : option str) : str :=
  match text with
  | None | Some [] => []
  | Some text =>
    let text := collapse_whitespace false text in
    let text := strip text in
    text
  end.

Definition is_retweet (text : str) : bool :=
  startswith (py "RT @") text || startswith (py "rt @") text.

(** ** Delivery ([TelegramSender]) *)

(** [s.split(sep)] for a separator of one character. *)
Fixpoint split_on (sep : N) (s : str) : list str :=
  match s with
  | [] => [[]]
  | c :: t =>
    if c =? sep then [] :: split_on sep t
    else match split_on sep t with
         | [] => [[c]]
         | w :: ws => (c :: w) :: ws
         end
  end.

Definition newline : str := [10].

(** [len(s)] *)
Definition len (s : str) : Z := Z.of_nat (length s).

(** [parts.append(current_part.strip())] under [if current_part]. *)
Definition flush_part (parts : list str) (current_part : str) : list str :=
  match current_part with
  | [] => parts
  | _ :: _ => parts ++ [strip current_part]
  end.

(** The body of the loop of [_split_message], on [(parts, current_part)]. *)
Definition split_message_step (max_length : Z)
    (st : list str * str) (line : str) : list str * str :=
  let '(parts, current_part) := st in
  if (len (current_part ++ line ++ newline) <=? max_length)%Z
  then (parts, current_part ++ line ++ newline)
  else (flush_part parts current_part, line ++ newline).

Definition split_message (message : str) (max_length : Z) : list str :=
  let lines := split_on 10 message in
  let '(parts, current_part) :=
    fold_left (split_message_step max_length) lines ([], []) in
  flush_part parts current_part.

Definition continuation_follows : str :=
  [10; 10] ++ py "_Продолжение следует..._".

Definition continuation_header (i n : nat) : str :=
  py "_Продолжение (" ++ str_of_int (Z.of_nat i + 1) ++ py "/"
    ++ str_of_int (Z.of_nat n) ++ py ")_" ++ [10; 10].

(** What the loop of [send_message] makes of part [i] of [n]. *)
Definition decorate_part (n i : nat) (part : str) : str :=
  if (i =? 0)%nat then part ++ continuation_follows
  else if (Z.of_nat i =? Z.of_nat n - 1)%Z then continuation_header i n ++ part
  else continuation_header i n ++ part ++ continuation_follows.

(** The texts that [send_message] passes to the bot, in order, when no
    call of the bot raises. *)
Definition send_message_texts (message : str) : list str :=
  let max_length := 3800%Z in
  if (len message <=? max_length)%Z then [message]
  else
    let parts := split_message message max_length in
    imap (decorate_part (length parts)) parts.

(** The text that [send_news_digest] passes to [send_message]. *)
Definition digest_text (current_date : str) (news_list : list NewsItem) : str :=
  match news_list with
  | [] =>
    py "📰 *AI News Digest*" ++ [10; 10] ++
    py "Новостей не найдено за последние 24 часа."
  | _ :: _ =>
    format_news_for_telegram current_date news_list (Z.of_nat (length news_list))
  end.

(** ** Reddit content type ([RedditParser._get_content_type]) *)

(** What the function reads of a post: [selftext] is [None] when the post
    has no such attribute, [post_url] when reading [post.url] raises. *)
Record reddit_post := mk_post {
  selftext : option str;
  post_url : option str
}.

Definition image_markers : list str :=
  [ py ".jpg"; py ".jpeg"; py ".png"; py ".gif"; py ".webp"; py "imgur.com";
    py "i.redd.it" ].
Definition video_markers : list str :=
  [ py ".mp4"; py ".webm"; py ".mov"; py "youtube.com"; py "youtu.be";
    py "vimeo.com"; py "streamable.com" ].
Definition reddit_domains : list str := [ py "reddit.com"; py "redd.it" ].

Definition get_content_type (post : reddit_post) : str :=
  let has_text :=
    match selftext post with
    | Some s => negb (bool_decide (s = [])) && negb (bool_decide (s = py "[deleted]"))
    | None => false
    end in
  if has_text then py "text"
  else match post_url post with
  | None => py "unknown"
  | Some u =>
    let url := lower u in
    if existsb (λ ext, contains ext url) image_markers then py "image"
    else if existsb (λ ext, contains ext url) video_markers then py "video"
    else if startswith (py "http") url
            && negb (existsb (λ domain, contains domain url) reddit_domains)
    then py "link"
    else py "text"
  end.

(** ** Configuration check ([Config.validate_config])

    [env] is [os.environ] after [load_dotenv()]. *)

(** [not value] for what [os.getenv] returns. *)
Definition unset (value : option str) : bool :=
  match value with
  | None | Some [] => true
  | Some (_ :: _) => false
  end.

(** [os.getenv(key, 'true').lower() == 'true'] *)
Definition enabled (env : gmap str str) (key : str) : bool :=
  bool_decide (lower (default (py "true") (env !! key)) = py "true").

Definition config_errors (env : gmap str str) : list str :=
  let errors := [] in
  let errors :=
    if unset (env !! py "TELEGRAM_BOT_TOKEN")
    then errors ++ [py "TELEGRAM_BOT_TOKEN не установлен"] else errors in
  let errors :=
    if unset (env !! py "TELEGRAM_CHAT_ID")
    then errors ++ [py "TELEGRAM_CHAT_ID не установлен"] else errors in
  let errors :=
    if enabled env (py "ENABLE_YOUTUBE") && unset (env !! py "YOUTUBE_API_KEY")
    then errors ++ [py "YOUTUBE_API_KEY не установлен, но YouTube включен"]
    else errors in
  let errors :=
    if enabled env (py "ENABLE_REDDIT")
       && (unset (env !! py "REDDIT_CLIENT_ID")
           || unset (env !! py "REDDIT_CLIENT_SECRET"))
    then errors ++ [py "Reddit API credentials не установлены, но Reddit включен"]
    else errors in
  errors.

Definition validate_config (env : gmap str str) : outcome bool :=
  match config_errors env with
  | [] => Returned true
  | (_ :: _) as errors =>
    ValueError (py "Ошибки конфигурации:" ++ [10] ++ join [10] errors)
  end.

(** ** Video duration ([YouTubeParser._parse_duration]) *)

(** The decimal value of the code points from 128 on that [\d] matches. *)
Variable unicode_digit : N → option N.

Definition digit_value (c : N) : option N :=
  if c <? 128 then (if in_range 48 57 c then Some (c - 48) else None)
  else unicode_digit c.

(** [s.replace(ab, '')] for a string [ab] of two characters. *)
Fixpoint remove_pair (a b : N) (s : str) : str :=
  match s with
  | [] => []
  | c :: rest =>
    match rest with
    | [] => [c]
    | c' :: t =>
      if (c =? a) && (c' =? b) then remove_pair a b t
      else c :: remove_pair a b rest
    end
  end.

(** [re.search(r'(\d+)X', s)] for a letter [X]: the digits of the first
    run of digits that [X] follows.  [run] holds the digits read since
    the last character that was not one. *)
Fixpoint search_number (marker : N) (run : list N) (s : str) : option (list N) :=
  match s with
  | [] => None
  | c :: t =>
    match digit_value c with
    | Some d => search_number marker (run ++ [d]) t
    | None =>
      match run with
      | _ :: _ => if c =? marker then Some run else search_number marker [] t
      | [] => search_number marker [] t
      end
    end
  end.

(** [int(digits)] *)
Definition int_of_digits (digits : list N) : Z :=
  fold_left (λ acc d, (10 * acc + Z.of_N d)%Z) digits 0%Z.

(** [sys.get_int_max_str_digits()], as it is unless the interpreter is
    told otherwise. *)
Definition int_max_str_digits : Z := 4300.

(** [int(group)] for the digits that [\d+] matched.  A string of more
    than [int_max_str_digits] digits, leading zeros counted, raises
    [ValueError], which is [None] here. *)
Definition int_of_str (digits : list N) : option Z :=
  if (len digits <=? int_max_str_digits)%Z
  then Some (int_of_digits digits) else None.

(** [duration_str] is [None] when it is not a string.  The body is in a
    [try] whose handler answers every exception with 0: the [TypeError]
    of a missing string and the [ValueError] of [int]. *)
Definition parse_duration (duration_str : option str) : Z :=
  match duration_str with
  | None => 0%Z
  | Some duration_str =>
    let duration_str := remove_pair 80 84 duration_str in
    let hours := search_number 72 [] duration_str in
    let minutes := search_number 77 [] duration_str in
    let seconds := search_number 83 [] duration_str in
    let total_seconds : option Z := Some 0%Z in
    let total_seconds :=
      match hours with
      | Some h =>
        total ← total_seconds; value ← int_of_str h;
        Some (total + value * 3600)%Z
      | None => total_seconds
      end in
    let total_seconds :=
      match minutes with
      | Some m =>
        total ← total_seconds; value ← int_of_str m;
        Some (total + value * 60)%Z
      | None => total_seconds
      end in
    let total_seconds :=
      match seconds with
      | Some s =>
        total ← total_seconds; value ← int_of_str s;
        Some (total + value)%Z
      | None => total_seconds
      end in
    default 0%Z total_seconds
  end.

(** ** An instance of the tables

    Enough of the Unicode database to run the functions on Russian and
    English text: the Cyrillic block and the no-break space. *)

Definition cyrillic_lower (c : N) : list N :=
  if in_range 1040 1071 c then [c + 32]
  else if in_range 1024 1039 c then [c + 80]
  else [c].

Definition cyrillic_alnum (c : N) : bool := in_range 1024 1279 c.

Definition nbsp_space (c : N) : bool := c =? 160.

Definition ascii_digits_only (c : N) : option N := None.

(** ** Sample inputs *)

Definition sample_date : str := py "03 November 2026".

Definition utc_datetime (w : Z) : datetime := {| wall := w; utcoffset := Some 0%Z |}.
Definition naive_datetime (w : Z) : datetime := {| wall := w; utcoffset := None |}.

(** An item as a source adapter builds it. *)
Definition sample_news (t u : string) (d : field datetime) : NewsItem :=
  {| title := Some (py t); url := Some (py u); source := Some (py "Hacker News");
     published_date := d; description := Some []; keywords := Some [];
     content_type := None; duration := None; relevance_score := None |}.

Definition news_without_date : NewsItem :=
  sample_news "ChatGPT update" "https://a" Absent.
Definition news_with_utc_date : NewsItem :=
  sample_news "OpenAI release" "https://b" (Present (utc_datetime 63839664000000000)).
Definition news_with_null_date : NewsItem :=
  sample_news "ChatGPT update" "https://a" Null.
Definition news_with_naive_date : NewsItem :=
  sample_news "ChatGPT update" "https://a" (Present (naive_datetime 63839664000000000)).
Definition news_with_apostrophe : NewsItem :=
  sample_news "OpenAI's new model" "https://c" (Present (utc_datetime 63839664000000000)).

Definition news_dated_later : NewsItem :=
  sample_news "ChatGPT update" "https://a" (Present (utc_datetime 63839750400000000)).

(** Five short lines, one of them empty. *)
Definition sample_message : str :=
  py "aa" ++ [10] ++ py "bb" ++ [10; 10] ++ py "ccc" ++ [10] ++ py "d".

Definition sample_env : gmap str str :=
  <[py "TELEGRAM_BOT_TOKEN" := py "token"]>
    (<[py "TELEGRAM_CHAT_ID" := py "42"]>
       (<[py "ENABLE_YOUTUBE" := py "False"]>
          (<[py "ENABLE_REDDIT" := py "no"]> ∅))).

(** * Properties *)

(** ** Substring search *)

Lemma startswith_spec (p s : str) :
  startswith p s = true ↔ ∃ post, s = p ++ post.
Proof.
  revert s. induction p as [|x p IH]; intros s; simpl.
  - split; [intros _; by exists s | done].
  - destruct s as [|y s].
    + split; [done | intros [post Hp]; discriminate Hp].
    + rewrite andb_true_iff, N.eqb_eq, IH. split.
      * intros [-> [post ->]]. by exists post.
      * intros [post Hp]. injection Hp as -> ->. eauto.
Qed.

Lemma contains_spec (needle hay : str) :
  contains needle hay = true ↔ substring_of needle hay.
Proof.
  unfold substring_of. induction hay as [|c t IH]; simpl.
  - rewrite orb_false_r, startswith_spec. split.
    + intros [post Hp]. by exists [], post.
    + intros (pre & post & Hp). symmetry in Hp.
      apply app_eq_nil in Hp as [-> Hp]. apply app_eq_nil in Hp as [-> ->].
      by exists [].
  - rewrite orb_true_iff, startswith_spec, IH. split.
    + intros [[post Hp] | (pre & post & Hp)].
      * by exists [], post.
      * exists (c :: pre), post. by rewrite Hp.
    + intros ([|c' pre] & post & Hp).
      * left. by exists post.
      * right. injection Hp as -> ->. eauto.
Qed.

#[export] Instance substring_of_dec needle hay : Decision (substring_of needle hay).
Proof.
  refine (cast_if (decide (contains needle hay = true)));
    by rewrite <- contains_spec.
Defined.

Lemma substring_of_app_r (needle hay extra : str) :
  substring_of needle hay → substring_of needle (hay ++ extra).
Proof.
  intros (pre & post & ->). exists pre, (post ++ extra).
  by rewrite <- !app_assoc.
Qed.

Lemma substring_of_nil_r (needle : str) : substring_of needle [] → needle = [].
Proof.
  intros (pre & post & Hp). symmetry in Hp.
  apply app_eq_nil in Hp as [_ Hp]. by apply app_eq_nil in Hp as [-> _].
Qed.

Lemma lower_app (a b : str) : lower (a ++ b) = lower a ++ lower b.
Proof. unfold lower. apply flat_map_app. Qed.

(** ** Case folding *)

(** The case folding of ASCII, written out: the capital letters A to Z go
    to a to z and no other character below 128 changes. *)
Definition ascii_fold (c : N) : N :=
  if (65 <=? c) && (c <=? 90) then c + 32 else c.

Definition ascii (s : str) : Prop := Forall (λ c, c < 128) s.

(** Two ASCII texts that differ at most in the case of their letters. *)
Definition same_up_to_case (a b : str) : Prop :=
  ascii a ∧ ascii b ∧ ascii_fold <$> a = ascii_fold <$> b.

Lemma lower_unfold (t : str) :
  lower t
  = flat_map (λ c, if c <? 128 then [ascii_fold c] else unicode_lower c) t.
Proof.
  unfold lower. induction t as [|c t IH]; [done |]. simpl. rewrite IH.
  f_equal. unfold lower_char, ascii_fold, in_range.
  destruct (c <? 128); [| done]. by destruct ((65 <=? c) && (c <=? 90)).
Qed.

Lemma lower_ascii (t : str) : ascii t → lower t = ascii_fold <$> t.
Proof.
  rewrite lower_unfold. induction 1 as [|c t Hc _ IH]; [done |]. simpl.
  rewrite IH. apply N.ltb_lt in Hc. by rewrite Hc.
Qed.

Lemma lower_same_up_to_case (a b : str) :
  same_up_to_case a b → lower a = lower b.
Proof. intros (Ha & Hb & Hab). by rewrite !lower_ascii. Qed.

Lemma filter_iff_on {A} (P Q : A → Prop)
    `{∀ x, Decision (P x)} `{∀ x, Decision (Q x)} (l : list A) :
  Forall (λ x, P x ↔ Q x) l → filter P l = filter Q l.
Proof.
  induction 1 as [|x l Hx _ IH]; [done |].
  rewrite !filter_cons, IH.
  destruct (decide (P x)), (decide (Q x)); tauto.
Qed.

(** ** Keyword matcher *)

(** A keyword occurs in a text without regard to case when its lower-cased
    form is a substring of the lower-cased text. *)
Definition occurs_ci (keyword text : str) : Prop :=
  substring_of (lower keyword) (lower text).

Lemma AI_KEYWORDS_lower_nonempty : Forall (λ k, lower k ≠ []) AI_KEYWORDS.
Proof. unfold AI_KEYWORDS. repeat constructor; vm_compute; discriminate. Qed.

Lemma AI_KEYWORDS_ascii : Forall ascii AI_KEYWORDS.
Proof. apply (bool_decide_unpack _). vm_compute. exact I. Qed.

Lemma EXCLUDE_KEYWORDS_ascii : Forall ascii EXCLUDE_KEYWORDS.
Proof. apply (bool_decide_unpack _). vm_compute. exact I. Qed.

(** A keyword occurs without regard to case wherever a spelling of it in
    other case stands in the text. *)
Lemma occurs_ci_variant (k k' pre post : str) :
  same_up_to_case k k' → occurs_ci k (pre ++ k' ++ post).
Proof.
  intros Hk. unfold occurs_ci. rewrite !lower_app.
  rewrite <- (lower_same_up_to_case k k' Hk). by exists (lower pre), (lower post).
Qed.

Lemma occurs_ci_ascii (k t : str) :
  ascii k → ascii t →
  occurs_ci k t ↔ substring_of (ascii_fold <$> k) (ascii_fold <$> t).
Proof. intros Hk Ht. unfold occurs_ci. by rewrite !lower_ascii. Qed.

Lemma no_keyword_in_empty_text k : k ∈ AI_KEYWORDS → ¬ occurs_ci k [].
Proof.
  intros Hk Ho. apply substring_of_nil_r in Ho.
  pose proof AI_KEYWORDS_lower_nonempty as HF.
  rewrite Forall_forall in HF. by apply (HF k).
Qed.

Lemma existsb_occurs (keywords : list str) (text : str) :
  existsb (λ keyword, contains (lower keyword) (lower text)) keywords = true
  ↔ ∃ k, k ∈ keywords ∧ occurs_ci k text.
Proof.
  rewrite existsb_exists. unfold occurs_ci.
  split; intros (k & Hk & Hc); exists k.
  - by rewrite list_elem_of_In, <- contains_spec.
  - by rewrite <- list_elem_of_In, contains_spec.
Qed.

Lemma contains_ai_keywords_some (t : str) :
  contains_ai_keywords (Some t) = true ↔
  (∃ k, k ∈ AI_KEYWORDS ∧ occurs_ci k t)
  ∧ (∀ k, k ∈ EXCLUDE_KEYWORDS → ¬ occurs_ci k t).
Proof.
  destruct t as [|c t].
  - simpl. split; [done |].
    intros [(k & Hk & Ho) _]. by destruct (no_keyword_in_empty_text k).
  - unfold contains_ai_keywords.
    rewrite andb_true_iff, negb_true_iff, existsb_occurs.
    rewrite <- not_true_iff_false, existsb_occurs. split.
    + intros [Hin Hex]. split; [done |]. intros k Hk Ho. apply Hex. eauto.
    + intros [Hin Hex]. split; [done |]. intros (k & Hk & Ho). by apply (Hex k).
Qed.

(** C6. [contains_ai_keywords] is true exactly for a text in which some
    inclusion keyword occurs without regard to case and no exclusion
    keyword does; an exclusion keyword that occurs makes it false whatever
    else matches; it is false for the empty text and for [None].

    Without regard to case is what [str.lower] makes of it: below 128 the
    capital letters A to Z go to a to z and nothing else changes, and from
    128 on the Unicode table decides.  So for an ASCII text the keywords
    are searched in the text with the capitals of both folded, an exclusion
    keyword vetoes in whatever case it is spelled, and an inclusion
    keyword is found in whatever case it is spelled. *)
Theorem contains_ai_keywords_spec :
  (∀ text : option str,
     contains_ai_keywords text = true ↔
     ∃ t, text = Some t
          ∧ (∃ k, k ∈ AI_KEYWORDS ∧ occurs_ci k t)
          ∧ (∀ k, k ∈ EXCLUDE_KEYWORDS → ¬ occurs_ci k t))
  ∧ (∀ (t : str) (k : str),
       k ∈ EXCLUDE_KEYWORDS → occurs_ci k t →
       contains_ai_keywords (Some t) = false)
  ∧ contains_ai_keywords None = false
  ∧ contains_ai_keywords (Some []) = false
  ∧ (∀ t : str,
       lower t
       = flat_map
           (λ c, if c <? 128
                 then [if (65 <=? c) && (c <=? 90) then c + 32 else c]
                 else unicode_lower c) t)
  ∧ (∀ t : str,
       Forall (λ c, c < 128) t →
       contains_ai_keywords (Some t) = true ↔
       (∃ k, k ∈ AI_KEYWORDS
             ∧ substring_of (ascii_fold <$> k) (ascii_fold <$> t))
       ∧ (∀ k, k ∈ EXCLUDE_KEYWORDS →
               ¬ substring_of (ascii_fold <$> k) (ascii_fold <$> t)))
  ∧ (∀ k k' pre post : str,
       k ∈ EXCLUDE_KEYWORDS → same_up_to_case k k' →
       contains_ai_keywords (Some (pre ++ k' ++ post)) = false)
  ∧ (∀ k k' pre post : str,
       k ∈ AI_KEYWORDS → same_up_to_case k k' →
       (∀ x, x ∈ EXCLUDE_KEYWORDS → ¬ occurs_ci x (pre ++ k' ++ post)) →
       contains_ai_keywords (Some (pre ++ k' ++ post)) = true)
  ∧ contains_ai_keywords (Some (py "CHATGPT can now browse")) = true
  ∧ contains_ai_keywords (Some (py "chatgpt can now browse")) = true
  ∧ contains_ai_keywords (Some (py "OpenAI Research PAPER on agents")) = false
  ∧ contains_ai_keywords (Some (py "OpenAI research on agents")) = true.
Proof.
  assert (Hveto : ∀ (t : str) (k : str),
    k ∈ EXCLUDE_KEYWORDS → occurs_ci k t →
    contains_ai_keywords (Some t) = false).
  { intros t k Hk Ho. apply not_true_iff_false. rewrite contains_ai_keywords_some.
    intros [_ Hex]. by apply (Hex k). }
  split.
  { intros text. split.
    - destruct text as [t|]; [|done].
      intros Ht. exists t. split; [done |]. by apply contains_ai_keywords_some.
    - intros (t & -> & H). by apply contains_ai_keywords_some. }
  split; [exact Hveto |]. split; [done |]. split; [done |].
  split; [exact lower_unfold |].
  split.
  { intros t Ht. rewrite contains_ai_keywords_some.
    pose proof AI_KEYWORDS_ascii as HA. pose proof EXCLUDE_KEYWORDS_ascii as HE.
    rewrite Forall_forall in HA, HE. split.
    - intros [(k & Hk & Ho) Hex]. split.
      + exists k. split; [done |]. apply occurs_ci_ascii; auto.
      + intros x Hx Ho'. apply (Hex x Hx). apply occurs_ci_ascii; auto.
    - intros [(k & Hk & Ho) Hex]. split.
      + exists k. split; [done |]. apply occurs_ci_ascii; auto.
      + intros x Hx Ho'. apply (Hex x Hx). apply occurs_ci_ascii; auto. }
  split.
  { intros k k' pre post Hk Hkk. apply (Hveto _ k Hk).
    by apply occurs_ci_variant. }
  split.
  { intros k k' pre post Hk Hkk Hex. apply contains_ai_keywords_some.
    split; [| done]. exists k. split; [done |]. by apply occurs_ci_variant. }
  repeat split; vm_compute; reflexivity.
Qed.

Lemma collect_keywords_filter (text_lower : str) (l found : list str) :
  fold_left
    (λ found_keywords keyword,
       if contains (lower keyword) text_lower
       then found_keywords ++ [keyword]
       else found_keywords)
    l found
  = found ++ filter (λ k, substring_of (lower k) text_lower) l.
Proof.
  revert found. induction l as [|k l IH]; intros found; simpl.
  - by rewrite app_nil_r.
  - rewrite IH, filter_cons.
    destruct (contains (lower k) text_lower) eqn:Hc.
    + rewrite decide_True by by apply contains_spec.
      by rewrite <- app_assoc.
    + rewrite decide_False; [done |].
      rewrite <- contains_spec. congruence.
Qed.

(** C3 (as the code has it).  [extract_keywords_from_text] returns the
    entries of [AI_KEYWORDS] that occur in the text without regard to
    case, in the order of the list and once for each entry of the list;
    the empty text and [None] give the empty list.

    Without regard to case is what [str.lower] makes of it: below 128 the
    capital letters A to Z go to a to z and nothing else changes, and from
    128 on the Unicode table decides.  So for an ASCII text the result is
    the list filtered by a search with the capitals of keyword and text
    folded, and a keyword is reported wherever a spelling of it in any
    case stands in the text. *)
Theorem extract_keywords_from_text_spec :
  (∀ t : str,
     extract_keywords_from_text (Some t)
     = filter (λ k, occurs_ci k t) AI_KEYWORDS)
  ∧ extract_keywords_from_text None = []
  ∧ extract_keywords_from_text (Some []) = []
  ∧ (∀ t : str,
       lower t
       = flat_map
           (λ c, if c <? 128
                 then [if (65 <=? c) && (c <=? 90) then c + 32 else c]
                 else unicode_lower c) t)
  ∧ (∀ t : str,
       Forall (λ c, c < 128) t →
       extract_keywords_from_text (Some t)
       = filter
           (λ k, substring_of (ascii_fold <$> k) (ascii_fold <$> t))
           AI_KEYWORDS)
  ∧ (∀ k k' pre post : str,
       k ∈ AI_KEYWORDS → same_up_to_case k k' →
       k ∈ extract_keywords_from_text (Some (pre ++ k' ++ post)))
  ∧ extract_keywords_from_text (Some (py "OPENAI ships chatgpt update"))
    = [py "ChatGPT"; py "OpenAI"; py "AI"; py "OpenAI"]
  ∧ extract_keywords_from_text (Some (py "openai ships ChatGPT update"))
    = [py "ChatGPT"; py "OpenAI"; py "AI"; py "OpenAI"]
  ∧ extract_keywords_from_text (Some (py "A new llm from nvidia"))
    = [py "LLM"; py "NVIDIA"].
Proof.
  assert (Hmain : ∀ t : str,
    extract_keywords_from_text (Some t)
    = filter (λ k, occurs_ci k t) AI_KEYWORDS).
  { intros [|c t].
    - simpl. symmetry.
      induction AI_KEYWORDS_lower_nonempty as [|k l Hk _ IH]; [done |].
      rewrite filter_cons_False; [done |].
      intros Ho. by apply substring_of_nil_r in Ho.
    - unfold extract_keywords_from_text. by rewrite collect_keywords_filter. }
  split; [exact Hmain |]. split; [done |]. split; [done |].
  split; [exact lower_unfold |].
  split.
  { intros t Ht. rewrite Hmain. apply filter_iff_on.
    eapply Forall_impl; [exact AI_KEYWORDS_ascii |].
    intros k Hk. by apply occurs_ci_ascii. }
  split.
  { intros k k' pre post Hk Hkk. rewrite Hmain.
    apply list_elem_of_filter. split; [| done]. by apply occurs_ci_variant. }
  repeat split; vm_compute; reflexivity.
Qed.

(** ** Relevance scorer *)

(** How many keywords of a tier are substrings of a text. *)
Definition matches (tier : list str) (text : str) : nat :=
  length (filter (λ k, substring_of k text) tier).

(** The text that the scorer searches. *)
Definition combined_text (title description : str) : str :=
  lower (title ++ py " " ++ description).

(** [min(len(keywords) * 5, 20)], nothing for [None]. *)
Definition keyword_bonus (keywords : option (list str)) : Z :=
  Z.min (Z.of_nat (length (default [] keywords)) * 5) 20.

Lemma add_tier_matches (weight : Z) (tier : list str) (text : str) (score : Z) :
  add_tier weight tier text score
  = (score + weight * Z.of_nat (matches tier text))%Z.
Proof.
  unfold add_tier, matches. revert score.
  induction tier as [|k tier IH]; intros score; simpl.
  - lia.
  - rewrite IH, filter_cons. destruct (contains k text) eqn:Hc.
    + rewrite decide_True by by apply contains_spec. simpl length. lia.
    + rewrite decide_False; [done |]. rewrite <- contains_spec. congruence.
Qed.

Lemma keyword_bonus_range keywords : (0 ≤ keyword_bonus keywords ≤ 20)%Z.
Proof. unfold keyword_bonus. lia. Qed.

Lemma calculate_relevance_score_formula (c : N) (title description : str) keywords :
  calculate_relevance_score (c :: title) description keywords
  = Z.min
      (20 * Z.of_nat (matches high_priority (combined_text (c :: title) description))
       + 10 * Z.of_nat (matches medium_priority (combined_text (c :: title) description))
       + 5 * Z.of_nat (matches low_priority (combined_text (c :: title) description))
       + keyword_bonus keywords)
      100.
Proof.
  unfold calculate_relevance_score, combined_text, keyword_bonus.
  rewrite !add_tier_matches.
  destruct keywords as [[|k ks]|]; simpl; lia.
Qed.

Lemma length_filter_mono {A} (P Q : A → Prop)
    `{!∀ x, Decision (P x)} `{!∀ x, Decision (Q x)} (l : list A) :
  (∀ x, P x → Q x) → (length (filter P l) ≤ length (filter Q l))%nat.
Proof.
  intros HPQ. induction l as [|x l IH]; [done |].
  rewrite !filter_cons.
  destruct (decide (P x)) as [HP|HP], (decide (Q x)) as [HQ|HQ]; simpl; try lia.
  by destruct HQ; apply HPQ.
Qed.

Lemma length_filter_gain {A} (P Q : A → Prop)
    `{!∀ x, Decision (P x)} `{!∀ x, Decision (Q x)} (l : list A) (k : A) :
  (∀ x, P x → Q x) → k ∈ l → ¬ P k → Q k →
  (S (length (filter P l)) ≤ length (filter Q l))%nat.
Proof.
  intros HPQ Hk HnP HQ. induction l as [|x l IH]; [by apply not_elem_of_nil in Hk |].
  rewrite !filter_cons.
  pose proof (length_filter_mono P Q l HPQ) as Hmono.
  apply elem_of_cons in Hk as [<- | Hk].
  - rewrite decide_False, decide_True by done. simpl. lia.
  - specialize (IH Hk).
    destruct (decide (P x)) as [HP|HP], (decide (Q x)) as [HQ'|HQ']; simpl; try lia.
    by destruct HQ'; apply HPQ.
Qed.

Lemma matches_mono (tier : list str) (text extra : str) :
  (matches tier text ≤ matches tier (text ++ extra))%nat.
Proof.
  apply length_filter_mono. intros k. apply substring_of_app_r.
Qed.

Lemma combined_text_app (title description extra : str) :
  combined_text title (description ++ extra)
  = combined_text title description ++ lower extra.
Proof. unfold combined_text. by rewrite !app_assoc, !lower_app. Qed.

Lemma high_priority_lower : Forall (λ k, lower k = k) high_priority.
Proof. unfold high_priority. repeat constructor. Qed.

(** C7. The score is an integer between 0 and 100; it is 0 for an empty
    title, and otherwise 20, 10 and 5 for each high, medium and low
    priority keyword found in the lower-cased title and description, plus
    the bonus [min(len(keywords) * 5, 20)], capped at 100; no term is
    negative. *)
Theorem calculate_relevance_score_spec :
  (∀ title description keywords,
     (0 ≤ calculate_relevance_score title description keywords ≤ 100)%Z)
  ∧ (∀ description keywords,
       calculate_relevance_score [] description keywords = 0%Z)
  ∧ (∀ c title description keywords,
       let text := combined_text (c :: title) description in
       calculate_relevance_score (c :: title) description keywords
       = Z.min
           (20 * Z.of_nat (matches high_priority text)
            + 10 * Z.of_nat (matches medium_priority text)
            + 5 * Z.of_nat (matches low_priority text)
            + keyword_bonus keywords)
           100)
  ∧ (∀ keywords, (0 ≤ keyword_bonus keywords ≤ 20)%Z).
Proof.
  split; [|split; [done | split]].
  - intros [|c title] description keywords; [simpl; lia |].
    rewrite calculate_relevance_score_formula.
    pose proof (keyword_bonus_range keywords). lia.
  - intros. apply calculate_relevance_score_formula.
  - apply keyword_bonus_range.
Qed.

(** C9. Appending to the text that is scored (the title, a space and the
    description) never lowers the score; appending a high priority
    keyword that the text did not contain raises it by at least 20, up to
    the cap of 100. *)
Theorem calculate_relevance_score_monotone :
  (∀ title description extra keywords,
     (calculate_relevance_score title description keywords
      ≤ calculate_relevance_score title (description ++ extra) keywords)%Z)
  ∧ (∀ c title description keywords k,
       k ∈ high_priority →
       ¬ substring_of k (combined_text (c :: title) description) →
       (Z.min (calculate_relevance_score (c :: title) description keywords + 20) 100
        ≤ calculate_relevance_score (c :: title) (description ++ k) keywords)%Z).
Proof.
  split.
  - intros [|c title] description extra keywords; [done |].
    rewrite !calculate_relevance_score_formula, combined_text_app.
    pose proof (matches_mono high_priority
      (combined_text (c :: title) description) (lower extra)).
    pose proof (matches_mono medium_priority
      (combined_text (c :: title) description) (lower extra)).
    pose proof (matches_mono low_priority
      (combined_text (c :: title) description) (lower extra)).
    lia.
  - intros c title description keywords k Hk Hnot.
    rewrite !calculate_relevance_score_formula, combined_text_app.
    assert (Hlow : lower k = k).
    { pose proof high_priority_lower as HF. rewrite Forall_forall in HF. by apply HF. }
    rewrite Hlow.
    assert (Hgain : (S (matches high_priority (combined_text (c :: title) description))
      ≤ matches high_priority (combined_text (c :: title) description ++ k))%nat).
    { apply (length_filter_gain _ _ _ k); [| done | done |].
      - intros x. apply substring_of_app_r.
      - exists (combined_text (c :: title) description), []. by rewrite app_nil_r. }
    pose proof (matches_mono medium_priority
      (combined_text (c :: title) description) k).
    pose proof (matches_mono low_priority
      (combined_text (c :: title) description) k).
    lia.
Qed.

(** ** Stable descending sort *)

Section Sorting.

Context {A : Type} (key : A → Z).

Lemma insert_desc_perm (x : A) (l : list A) : insert_desc key x l ≡ₚ x :: l.
Proof.
  induction l as [|y t IH]; simpl; [done |].
  destruct (key x <? key y)%Z; [|done].
  rewrite IH. apply perm_swap.
Qed.

Lemma sort_desc_perm (l : list A) : sort_desc key l ≡ₚ l.
Proof.
  induction l as [|x t IH]; simpl; [done |].
  by rewrite insert_desc_perm, IH.
Qed.

Definition key_ge (a b : A) : Prop := (key b ≤ key a)%Z.

Lemma insert_desc_sorted (x : A) (l : list A) :
  StronglySorted key_ge l → StronglySorted key_ge (insert_desc key x l).
Proof.
  induction 1 as [|y t Ht IH Hy]; simpl.
  - repeat constructor.
  - destruct (key x <? key y)%Z eqn:Hlt.
    + constructor; [done |].
      rewrite insert_desc_perm. constructor; [|done].
      unfold key_ge. apply Z.ltb_lt in Hlt. lia.
    + apply Z.ltb_ge in Hlt.
      constructor; [by constructor |].
      constructor; [done |].
      eapply Forall_impl; [exact Hy |]. unfold key_ge. intros z Hz. simpl in Hz. lia.
Qed.

Lemma sort_desc_sorted (l : list A) : StronglySorted key_ge (sort_desc key l).
Proof.
  induction l as [|x t IH]; simpl; [constructor |].
  by apply insert_desc_sorted.
Qed.

(** Stability: among the items of one key the order is the order of the
    input. *)
Lemma insert_desc_stable (v : Z) (x : A) (l : list A) :
  filter (λ a, key a = v) (insert_desc key x l)
  = filter (λ a, key a = v) (x :: l).
Proof.
  induction l as [|y t IH]; simpl; [done |].
  destruct (key x <? key y)%Z eqn:Hlt; [|done].
  apply Z.ltb_lt in Hlt.
  rewrite (filter_cons _ y), IH, !filter_cons.
  destruct (decide (key y = v)), (decide (key x = v)); try done. lia.
Qed.

Lemma sort_desc_stable (v : Z) (l : list A) :
  filter (λ a, key a = v) (sort_desc key l) = filter (λ a, key a = v) l.
Proof.
  induction l as [|x t IH]; simpl; [done |].
  by rewrite insert_desc_stable, !filter_cons, IH.
Qed.

End Sorting.

(** ** Filter and rank *)

(** The score that [filter_news_by_relevance] computes for an item. *)
Definition score_of (news : NewsItem) : Z :=
  calculate_relevance_score
    (default [] (title news)) (default [] (description news))
    (Some (default [] (keywords news))).

(** The title of the item passes the language filter. *)
Definition language_ok (news : NewsItem) : bool :=
  is_english_or_russian (Some (default [] (title news))).

(** The items that pass the language filter and reach the minimum score,
    in the order of the input, each with its score recorded. *)
Definition kept (news_list : list NewsItem) (min_score : Z) : list NewsItem :=
  (λ news, set_relevance_score news (score_of news)) <$>
  filter (λ news, language_ok news = true ∧ (min_score ≤ score_of news)%Z) news_list.

Lemma filter_news_fold_kept (min_score : Z) (news_list acc : list NewsItem) :
  fold_left (filter_news_step min_score) news_list acc
  = acc ++ kept news_list min_score.
Proof.
  unfold kept. revert acc.
  induction news_list as [|news l IH]; intros acc; simpl.
  - by rewrite app_nil_r.
  - rewrite IH, filter_cons. unfold filter_news_step.
    fold (language_ok news) (score_of news).
    destruct (decide _) as [[Hl Hs]|Hn].
    + rewrite Hl. apply Z.leb_le in Hs. simpl. rewrite Hs.
      by rewrite <- app_assoc.
    + destruct (language_ok news); [|done]. simpl.
      destruct (min_score <=? score_of news)%Z eqn:Hs; [|done].
      apply Z.leb_le in Hs. by destruct Hn.
Qed.

Lemma filter_news_by_relevance_kept (news_list : list NewsItem) (min_score : Z) :
  filter_news_by_relevance news_list min_score
  = sort_desc sort_key (kept news_list min_score).
Proof.
  unfold filter_news_by_relevance. by rewrite filter_news_fold_kept.
Qed.

Lemma elem_of_kept (news_list : list NewsItem) (min_score : Z) (n : NewsItem) :
  n ∈ kept news_list min_score ↔
  ∃ news, news ∈ news_list ∧ language_ok news = true
          ∧ (min_score ≤ score_of news)%Z
          ∧ n = set_relevance_score news (score_of news).
Proof.
  unfold kept. rewrite list_elem_of_fmap. split.
  - intros (news & -> & Hin). apply list_elem_of_filter in Hin as [[? ?] ?]. eauto 6.
  - intros (news & Hin & Hl & Hs & ->). exists news. split; [done |].
    by apply list_elem_of_filter.
Qed.

Lemma score_of_set_relevance_score (news : NewsItem) (score : Z) :
  score_of (set_relevance_score news score) = score_of news.
Proof. reflexivity. Qed.

Lemma kept_scored (news_list : list NewsItem) (min_score : Z) :
  Forall
    (λ n, relevance_score n = Some (score_of n)
          ∧ (min_score ≤ score_of n)%Z
          ∧ is_english_or_russian (Some (default [] (title n))) = true)
    (kept news_list min_score).
Proof.
  apply Forall_forall. intros n Hn.
  apply elem_of_kept in Hn as (news & _ & Hl & Hs & ->).
  rewrite score_of_set_relevance_score. by repeat split.
Qed.

(** C8. [filter_news_by_relevance] returns exactly the items whose title
    passes the language filter and whose score reaches [min_score], each
    with that score as [relevance_score] and its other fields as they
    were; the result is in descending order of [relevance_score], which is
    the computed score, and items of equal score are in the order of the
    input. *)
Theorem filter_news_by_relevance_spec (news_list : list NewsItem) (min_score : Z) :
  let out := filter_news_by_relevance news_list min_score in
  (∀ n, n ∈ out ↔
     ∃ news, news ∈ news_list
             ∧ is_english_or_russian (Some (default [] (title news))) = true
             ∧ (min_score ≤ score_of news)%Z
             ∧ n = set_relevance_score news (score_of news))
  ∧ out ≡ₚ kept news_list min_score
  ∧ StronglySorted
      (λ a b, (default 0 (relevance_score b) ≤ default 0 (relevance_score a))%Z) out
  ∧ (∀ v : Z,
       filter (λ n, default 0%Z (relevance_score n) = v) out
       = filter (λ n, default 0%Z (relevance_score n) = v) (kept news_list min_score))
  ∧ (∀ (news : NewsItem) (score : Z),
       relevance_score (set_relevance_score news score) = Some score
       ∧ title (set_relevance_score news score) = title news
       ∧ url (set_relevance_score news score) = url news
       ∧ source (set_relevance_score news score) = source news
       ∧ published_date (set_relevance_score news score) = published_date news
       ∧ description (set_relevance_score news score) = description news
       ∧ keywords (set_relevance_score news score) = keywords news
       ∧ content_type (set_relevance_score news score) = content_type news
       ∧ duration (set_relevance_score news score) = duration news)
  ∧ Forall
      (λ n, relevance_score n = Some (score_of n)
            ∧ (min_score ≤ score_of n)%Z
            ∧ is_english_or_russian (Some (default [] (title n))) = true)
      out
  ∧ StronglySorted (λ a b, (score_of b ≤ score_of a)%Z) out
  ∧ (∀ news, news ∈ news_list →
       is_english_or_russian (Some (default [] (title news))) = true →
       (min_score ≤ score_of news)%Z →
       ∃ n, n ∈ out
            ∧ relevance_score n = Some (score_of news)
            ∧ title n = title news ∧ url n = url news)
  ∧ length out
    = length
        (filter
           (λ news, is_english_or_russian (Some (default [] (title news))) = true
                    ∧ (min_score ≤ score_of news)%Z)
           news_list)
  ∧ (relevance_score <$>
       filter_news_by_relevance [news_without_date; news_with_utc_date] 0
     = [Some 30%Z; Some 20%Z])
  ∧ (title <$>
       filter_news_by_relevance [news_without_date; news_with_utc_date] 0
     = [Some (py "OpenAI release"); Some (py "ChatGPT update")])
  ∧ (relevance_score <$>
       filter_news_by_relevance
         [news_without_date; news_with_apostrophe; news_with_utc_date] 30
     = [Some 30%Z]).
Proof.
  intros out.
  assert (Forall
      (λ n, relevance_score n = Some (score_of n)
            ∧ (min_score ≤ score_of n)%Z
            ∧ is_english_or_russian (Some (default [] (title n))) = true)
      out) as Hscored.
  { unfold out. rewrite filter_news_by_relevance_kept.
    apply Forall_forall. intros n Hn. rewrite sort_desc_perm in Hn.
    pose proof (kept_scored news_list min_score) as Hk.
    rewrite Forall_forall in Hk. by apply Hk. }
  assert (StronglySorted
      (λ a b, (default 0 (relevance_score b) ≤ default 0 (relevance_score a))%Z)
      out) as Hsorted.
  { unfold out. rewrite filter_news_by_relevance_kept.
    apply (sort_desc_sorted sort_key). }
  split.
  { intros n. unfold out.
    rewrite filter_news_by_relevance_kept, sort_desc_perm. apply elem_of_kept. }
  split.
  { unfold out. rewrite filter_news_by_relevance_kept. apply sort_desc_perm. }
  split; [exact Hsorted |].
  split.
  { intros v. unfold out. rewrite filter_news_by_relevance_kept.
    apply (sort_desc_stable sort_key). }
  split; [by intros news score |].
  split; [exact Hscored |].
  split.
  { clear -Hscored Hsorted. induction Hsorted as [|a l Hl IH Ha]; [constructor |].
    apply Forall_cons in Hscored as [(Hsa & _) Hscored].
    constructor; [by apply IH |].
    apply Forall_forall. intros b Hb.
    rewrite Forall_forall in Ha, Hscored.
    specialize (Ha b Hb). destruct (Hscored b Hb) as (Hsb & _).
    rewrite Hsa, Hsb in Ha. exact Ha. }
  split.
  { intros news Hin Hl Hs. exists (set_relevance_score news (score_of news)).
    split; [| done]. unfold out.
    rewrite filter_news_by_relevance_kept, sort_desc_perm.
    apply elem_of_kept. eauto 6. }
  split.
  { unfold out. rewrite filter_news_by_relevance_kept, sort_desc_perm.
    unfold kept. by rewrite length_fmap. }
  repeat split; vm_compute; reflexivity.
Qed.

(** ** Language filter *)

Definition apostrophe : N := 39.

Lemma count_matching_pos (p : N → bool) (s : str) (c : N) :
  c ∈ s → p c = true → (0 < count_matching p s)%nat.
Proof.
  intros Hc Hp. unfold count_matching.
  assert (Hin : In c (List.filter p s)).
  { apply filter_In. split; [by apply list_elem_of_In | done]. }
  destruct (List.filter p s); [done | simpl; lia].
Qed.

Lemma apostrophe_rejected (text : str) :
  apostrophe ∈ text → is_english_or_russian (Some text) = false.
Proof.
  intros Hin. unfold is_english_or_russian.
  destruct text as [|c t]; [done |].
  destruct (_ =? 0)%nat; [done |].
  pose proof (count_matching_pos is_unwanted (c :: t) apostrophe Hin eq_refl) as Hpos.
  apply Nat.ltb_lt in Hpos. by rewrite Hpos.
Qed.

(** C10. A text that contains an apostrophe fails the language filter,
    the apostrophe being outside [\w], [\s] and the punctuation let
    through; so no item that [filter_news_by_relevance] returns has an
    apostrophe in its title, and an item with such a title leaves the
    result as if it had not been in the batch, whatever it would score. *)
Theorem apostrophe_title_dropped :
  is_unwanted apostrophe = true
  ∧ (∀ text : str,
       apostrophe ∈ text → is_english_or_russian (Some text) = false)
  ∧ (∀ news_list min_score n,
       n ∈ filter_news_by_relevance news_list min_score →
       apostrophe ∉ default [] (title n))
  ∧ (∀ before news after min_score,
       apostrophe ∈ default [] (title news) →
       filter_news_by_relevance (before ++ news :: after) min_score
       = filter_news_by_relevance (before ++ after) min_score).
Proof.
  split; [done | split; [exact apostrophe_rejected | split]].
  - intros news_list min_score n Hn Hap.
    rewrite filter_news_by_relevance_kept, sort_desc_perm in Hn.
    apply elem_of_kept in Hn as (news & _ & Hl & _ & ->).
    cbn [title set_relevance_score] in Hap.
    apply apostrophe_rejected in Hap.
    discriminate (eq_trans (eq_sym Hl) Hap).
  - intros before news after min_score Hap.
    rewrite !filter_news_by_relevance_kept. f_equal. unfold kept.
    rewrite !filter_app, filter_cons_False; [done |].
    intros [Hl _]. apply apostrophe_rejected in Hap.
    discriminate (eq_trans (eq_sym Hl) Hap).
Qed.

(** ** Deduplicator *)

(** The two keys of an item. *)
Definition norm_title (news : NewsItem) : str :=
  strip (lower (default [] (title news))).
Definition item_url (news : NewsItem) : str := default [] (url news).

(** The seen sets hold the keys of the items kept so far. *)
Definition dedup_inv (st : dedup_state) : Prop :=
  (∀ k, k ∈ st.1.1 ↔ k ∈ norm_title <$> st.2)
  ∧ (∀ k, k ∈ st.1.2 ↔ k ∈ item_url <$> st.2).

Lemma dedup_inv_init : dedup_inv (∅, ∅, []).
Proof.
  split; intros k; simpl; split; intros Hk.
  all: solve [by apply not_elem_of_empty in Hk | by apply not_elem_of_nil in Hk].
Qed.

Lemma dedup_inv_step (st : dedup_state) (news : NewsItem) :
  dedup_inv st → dedup_inv (remove_duplicates_step st news).
Proof.
  destruct st as [[seen_titles seen_urls] unique_news].
  intros [Ht Hu]. unfold remove_duplicates_step.
  fold (norm_title news) (item_url news).
  destruct (_ && _); [|done].
  split; intros k; simpl in *;
    rewrite fmap_snoc, elem_of_app, list_elem_of_singleton,
      elem_of_union, elem_of_singleton.
  - rewrite Ht. tauto.
  - rewrite Hu. tauto.
Qed.

Lemma dedup_inv_fold (news_list : list NewsItem) (st : dedup_state) :
  dedup_inv st → dedup_inv (fold_left remove_duplicates_step news_list st).
Proof.
  revert st. induction news_list as [|news l IH]; intros st Hst; simpl; [done |].
  by apply IH, dedup_inv_step.
Qed.

Lemma remove_duplicates_snoc (news_list : list NewsItem) (news : NewsItem) :
  remove_duplicates (news_list ++ [news])
  = if decide ((norm_title news ∉ (norm_title <$> remove_duplicates news_list))
               ∧ (item_url news ∉ (item_url <$> remove_duplicates news_list)))
    then remove_duplicates news_list ++ [news]
    else remove_duplicates news_list.
Proof.
  unfold remove_duplicates. rewrite fold_left_app. simpl.
  pose proof (dedup_inv_fold news_list _ dedup_inv_init) as [Ht Hu].
  destruct (fold_left remove_duplicates_step news_list (∅, ∅, []))
    as [[seen_titles seen_urls] unique_news].
  simpl in *. fold (norm_title news) (item_url news).
  destruct (decide _) as [[Hnt Hnu]|Hn].
  - rewrite <- Ht in Hnt. rewrite <- Hu in Hnu.
    rewrite (bool_decide_eq_true_2 _ Hnt), (bool_decide_eq_true_2 _ Hnu).
    reflexivity.
  - repeat case_bool_decide; simpl; try done.
    destruct Hn. by rewrite <- Ht, <- Hu.
Qed.

Lemma remove_duplicates_sublist (news_list : list NewsItem) :
  remove_duplicates news_list `sublist_of` news_list.
Proof.
  induction news_list as [|news l IH] using rev_ind; [done |].
  rewrite remove_duplicates_snoc. destruct (decide _).
  - by apply sublist_app.
  - by apply sublist_inserts_r.
Qed.

Lemma remove_duplicates_pair (a b : NewsItem) :
  remove_duplicates [a; b]
  = if decide (norm_title a = norm_title b ∨ item_url a = item_url b)
    then [a] else [a; b].
Proof.
  assert (Ha : remove_duplicates [a] = [a]).
  { change [a] with ([] ++ [a]) at 1. rewrite remove_duplicates_snoc.
    rewrite decide_True; [done |]. split; apply not_elem_of_nil. }
  change [a; b] with ([a] ++ [b]) at 1.
  rewrite remove_duplicates_snoc, Ha.
  destruct (decide (_ ∧ _)) as [[Hnt Hnu]|Hn],
    (decide (norm_title a = _ ∨ _)) as [Hd|Hd]; try done.
  - simpl in Hnt, Hnu. rewrite list_elem_of_singleton in Hnt, Hnu.
    destruct Hd; congruence.
  - destruct Hn. split; simpl; rewrite list_elem_of_singleton; intros ?; apply Hd; auto.
Qed.

(** ** Recency filter *)

(** The instant of a timestamp on the UTC time line, a naive one being
    read as UTC. *)
Definition utc_instant (d : datetime) : Z :=
  (wall d - default 0 (utcoffset d))%Z.

(** The lower end of the window, [now_utc - timedelta(hours=hours)], can
    be computed: the window has at most 999999999 days either way, and the
    lower end is a date of the years 1 to 9999. *)
Definition cutoff_representable (now_utc hours : Z) : Prop :=
  (-999999999 ≤ hours `div` 24 ≤ 999999999)%Z
  ∧ (0 ≤ now_utc - hours * 3600000000 ≤ 315537897599999999)%Z.

#[local] Instance cutoff_representable_dec now_utc hours :
  Decision (cutoff_representable now_utc hours).
Proof. unfold cutoff_representable. apply _. Defined.

Lemma timedelta_days (hours : Z) :
  ((hours * 3600) `div` 86400 = hours `div` 24)%Z.
Proof.
  change 86400%Z with (24 * 3600)%Z.
  apply Z.div_mul_cancel_r; lia.
Qed.

Lemma is_recent_news_some (now_utc hours : Z) (d : datetime) :
  cutoff_representable now_utc hours →
  is_recent_news now_utc (Some d) hours
  = Ok (bool_decide (now_utc - hours * 3600000000 ≤ utc_instant d)%Z).
Proof.
  intros [Hdays Hwall].
  unfold is_recent_news, timedelta_of_hours, datetime_sub,
    timedelta_max_days, datetime_max_wall, microseconds_per_hour.
  rewrite timedelta_days, bool_decide_eq_true_2 by lia. simpl.
  rewrite bool_decide_eq_true_2 by lia. simpl.
  unfold datetime_ge, datetime_cmp, utc_instant.
  destruct d as [w [off|]]; simpl; f_equal.
  all: apply eq_true_iff_eq; rewrite bool_decide_eq_true, Z.geb_le; lia.
Qed.

Lemma is_recent_news_overflow (now_utc hours : Z) (d : datetime) :
  ¬ cutoff_representable now_utc hours →
  is_recent_news now_utc (Some d) hours = Raise OverflowError.
Proof.
  intros Hno.
  unfold is_recent_news, timedelta_of_hours, datetime_sub,
    timedelta_max_days, datetime_max_wall, microseconds_per_hour.
  rewrite timedelta_days. case_bool_decide as Hdays; [| done]. simpl.
  case_bool_decide as Hwall; [| done].
  destruct Hno. split; lia.
Qed.

(** C5 (as the code has it).  [is_recent_news] is false for [None],
    whatever the window.  For a timestamp it computes [now_utc - hours]
    first: when that lower end cannot be computed it raises
    [OverflowError]; when it can, the answer is true exactly when the
    timestamp, a naive one read as UTC, is not before [now_utc] less
    [hours] times 3600 seconds.  The lower end itself is recent and one
    second before it is not; anything later than a recent timestamp is
    recent; with a window that is not negative so is every timestamp from
    now on, and with a negative window the present instant is not
    recent. *)
Theorem is_recent_news_spec (now_utc hours : Z) :
  is_recent_news now_utc None hours = Ok false
  ∧ (cutoff_representable now_utc hours →
     ∀ d, is_recent_news now_utc (Some d) hours
          = Ok (bool_decide
                  (now_utc - hours * 3600000000 ≤ utc_instant d)%Z))
  ∧ (¬ cutoff_representable now_utc hours →
     ∀ d, is_recent_news now_utc (Some d) hours = Raise OverflowError)
  ∧ (∀ w, is_recent_news now_utc (Some (naive_datetime w)) hours
          = is_recent_news now_utc (Some (utc_datetime w)) hours)
  ∧ (cutoff_representable now_utc hours →
     ∀ d, utc_instant d = (now_utc - hours * 3600000000)%Z →
          is_recent_news now_utc (Some d) hours = Ok true)
  ∧ (cutoff_representable now_utc hours →
     ∀ d, utc_instant d = (now_utc - hours * 3600000000 - 1000000)%Z →
          is_recent_news now_utc (Some d) hours = Ok false)
  ∧ (∀ d d', is_recent_news now_utc (Some d) hours = Ok true →
             (utc_instant d ≤ utc_instant d')%Z →
             is_recent_news now_utc (Some d') hours = Ok true)
  ∧ (cutoff_representable now_utc hours → (0 ≤ hours)%Z →
     ∀ d, (now_utc ≤ utc_instant d)%Z →
          is_recent_news now_utc (Some d) hours = Ok true)
  ∧ (cutoff_representable now_utc hours → (hours < 0)%Z →
     is_recent_news now_utc (Some (utc_datetime now_utc)) hours = Ok false)
  ∧ is_recent_news 63929304000000000
      (Some (naive_datetime 63929221200000000)) 24 = Ok true
  ∧ is_recent_news 63929304000000000
      (Some (utc_datetime 63929214000000000)) 24 = Ok false
  ∧ is_recent_news 63929304000000000
      (Some (utc_datetime 63929304000000000)) 100000000 = Raise OverflowError.
Proof.
  split; [done |]. split; [intros H d; by apply is_recent_news_some |].
  split; [intros H d; by apply is_recent_news_overflow |].
  split.
  { intros w. destruct (decide (cutoff_representable now_utc hours)) as [H|H].
    - by rewrite !is_recent_news_some.
    - by rewrite !is_recent_news_overflow. }
  repeat split.
  - intros H d Hd.
    rewrite is_recent_news_some, bool_decide_eq_true_2; [done | lia | done].
  - intros H d Hd.
    rewrite is_recent_news_some, bool_decide_eq_false_2; [done | lia | done].
  - intros d d'.
    destruct (decide (cutoff_representable now_utc hours)) as [H|H].
    + rewrite !is_recent_news_some by done. intros [= Hd] Hle.
      apply bool_decide_eq_true in Hd.
      rewrite bool_decide_eq_true_2; [done | lia].
    + by rewrite is_recent_news_overflow.
  - intros H Hh d Hd.
    rewrite is_recent_news_some, bool_decide_eq_true_2; [done | lia | done].
  - intros H Hh.
    rewrite is_recent_news_some, bool_decide_eq_false_2; [done | | done].
    unfold utc_instant. simpl. lia.
Qed.

(** ** Digest formatter *)

Lemma format_header_head (current_date : str) :
  ∃ rest, format_header current_date = [128240; 32; 60] ++ rest.
Proof.
  unfold format_header.
  set (lead := py _). vm_compute in lead. subst lead.
  eexists. reflexivity.
Qed.

Lemma NO_NEWS_MESSAGE_head : ∃ rest, NO_NEWS_MESSAGE = [128240; 32; 42] ++ rest.
Proof. eexists. vm_compute. reflexivity. Qed.

Lemma format_header_not_no_news (current_date rest : str) :
  format_header current_date ++ rest ≠ NO_NEWS_MESSAGE.
Proof.
  destruct (format_header_head current_date) as [r1 ->].
  destruct NO_NEWS_MESSAGE_head as [r2 ->]. discriminate.
Qed.

(** C1 (as the code has it).  [format_news_for_telegram] returns the
    no-news message exactly when the list it is given is empty.  A list
    that is not empty and of which [max_items] leaves nothing gives the
    header alone, with no item after it; so does every such list with
    [max_items = 0]. *)
Theorem format_news_for_telegram_no_news :
  (∀ current_date news_list max_items,
     format_news_for_telegram current_date news_list max_items = NO_NEWS_MESSAGE
     ↔ news_list = [])
  ∧ (∀ current_date news rest max_items,
       slice_to (news :: rest) max_items = [] →
       format_news_for_telegram current_date (news :: rest) max_items
       = format_header current_date)
  ∧ (∀ current_date news rest,
       format_news_for_telegram current_date (news :: rest) 0
       = format_header current_date).
Proof.
  split; [|split].
  - intros current_date [|news rest] max_items; simpl; [done |].
    split; [|done]. intros H. by apply format_header_not_no_news in H.
  - intros current_date news rest max_items Hs.
    unfold format_news_for_telegram. rewrite Hs. exact (app_nil_r _).
  - intros current_date news rest.
    unfold format_news_for_telegram. exact (app_nil_r _).
Qed.

(** ** Orchestrator *)

(** An item whose date is present and aware, as the source adapters make
    them. *)
Definition aware_date (x : NewsItem) : Prop :=
  ∃ d off, published_date x = Present d ∧ utcoffset d = Some off.

Definition date_instant (x : NewsItem) : Z :=
  match published_date x with
  | Present d => utc_instant d
  | _ => 0%Z
  end.

Lemma date_key_lt_aware (x y : NewsItem) :
  aware_date x → aware_date y →
  date_key_lt (date_key x) (date_key y) = Ok (date_instant x <? date_instant y)%Z.
Proof.
  intros (d & off & Hd & Hoff) (d' & off' & Hd' & Hoff').
  unfold date_key_lt, date_key, date_instant, datetime_lt, datetime_cmp, utc_instant.
  by rewrite Hd, Hd', Hoff, Hoff'.
Qed.

Lemma insert_desc_by_aware (x : NewsItem) (l : list NewsItem) :
  aware_date x → Forall aware_date l →
  insert_desc_by date_key_lt date_key x l = Ok (insert_desc date_instant x l).
Proof.
  intros Hx. induction 1 as [|y t Hy Ht IH]; simpl; [done |].
  rewrite (date_key_lt_aware x y Hx Hy). simpl.
  destruct (date_instant x <? date_instant y)%Z; [|done].
  by rewrite IH.
Qed.

Lemma sort_desc_by_aware (l : list NewsItem) :
  Forall aware_date l →
  sort_desc_by date_key_lt date_key l = Ok (sort_desc date_instant l).
Proof.
  induction 1 as [|x t Hx Ht IH]; simpl; [done |].
  rewrite IH. simpl. apply insert_desc_by_aware; [done |].
  by rewrite sort_desc_perm.
Qed.

(** When every date is present and aware the sort by date does not raise
    and is the stable descending sort by instant. *)
Lemma process_news_aware (news_list : list NewsItem) :
  Forall aware_date news_list →
  process_news news_list
  = Ok (sort_desc date_instant
          (filter_news_by_relevance (remove_duplicates news_list) 10)).
Proof.
  intros Hl. unfold process_news. apply sort_desc_by_aware.
  apply Forall_forall. intros n Hn.
  rewrite filter_news_by_relevance_kept, sort_desc_perm in Hn.
  apply elem_of_kept in Hn as (news & Hin & _ & _ & ->).
  rewrite Forall_forall in Hl. apply (Hl news).
  eapply elem_of_sublist; [done | apply remove_duplicates_sublist].
Qed.

(** * Further properties *)

(** ** Stripping white space *)

Definition spacy (c : N) : Prop := is_space c = true.

(** The string does not begin with white space. *)
Definition head_nonspace (s : str) : Prop :=
  match s with
  | [] => True
  | c :: _ => is_space c = false
  end.

Lemma lstrip_split (s : str) :
  ∃ dropped, s = dropped ++ lstrip s ∧ Forall spacy dropped.
Proof.
  induction s as [|c t (d & Ht & Hd)]; simpl.
  - by exists [].
  - destruct (is_space c) eqn:Hc.
    + exists (c :: d). split; [by rewrite Ht at 1 | by constructor].
    + by exists [].
Qed.

Lemma lstrip_head (s : str) : head_nonspace (lstrip s).
Proof.
  induction s as [|c t IH]; simpl; [done |].
  by destruct (is_space c) eqn:Hc.
Qed.

Lemma lstrip_fixed (s : str) : head_nonspace s → lstrip s = s.
Proof. destruct s as [|c t]; simpl; [done |]. by intros ->. Qed.

Lemma rstrip_split (s : str) :
  ∃ dropped, s = rstrip s ++ dropped ∧ Forall spacy dropped.
Proof.
  unfold rstrip. destruct (lstrip_split (rev s)) as (d & Hs & Hd).
  exists (rev d). split.
  - rewrite <- rev_app_distr, <- Hs. by rewrite rev_involutive.
  - apply Forall_forall. intros c Hc.
    rewrite Forall_forall in Hd. apply Hd.
    apply list_elem_of_In, in_rev. by apply list_elem_of_In.
Qed.

Lemma rstrip_head (s : str) : head_nonspace s → head_nonspace (rstrip s).
Proof.
  destruct (rstrip_split s) as (d & Hs & _).
  destruct (rstrip s) as [|c t]; [done |].
  rewrite Hs. by simpl.
Qed.

Lemma rstrip_last (s t : str) (c : N) : rstrip s = t ++ [c] → is_space c = false.
Proof.
  unfold rstrip. intros H.
  apply (f_equal (@rev N)) in H. rewrite rev_involutive, rev_app_distr in H. simpl in H.
  pose proof (lstrip_head (rev s)) as Hh. by rewrite H in Hh.
Qed.

Lemma rstrip_idemp (s : str) : rstrip (rstrip s) = rstrip s.
Proof.
  unfold rstrip. rewrite rev_involutive.
  by rewrite (lstrip_fixed (lstrip (rev s))) by apply lstrip_head.
Qed.

Lemma strip_idemp (s : str) : strip (strip s) = strip s.
Proof.
  unfold strip.
  rewrite (lstrip_fixed (rstrip (lstrip s))) by apply rstrip_head, lstrip_head.
  apply rstrip_idemp.
Qed.

Lemma strip_ends (s : str) :
  head_nonspace (strip s) ∧ ∀ t c, strip s = t ++ [c] → is_space c = false.
Proof.
  split.
  - apply rstrip_head, lstrip_head.
  - intros t c. apply rstrip_last.
Qed.

(** The characters that are not white space, in order. *)
Definition visible (s : str) : str := List.filter (λ c, negb (is_space c)) s.

Lemma visible_app (a b : str) : visible (a ++ b) = visible a ++ visible b.
Proof. unfold visible. apply List.filter_app. Qed.

Lemma visible_spacy (d : str) : Forall spacy d → visible d = [].
Proof.
  induction 1 as [|c t Hc _ IH]; simpl; [done |].
  unfold spacy in Hc. by rewrite Hc.
Qed.

Lemma visible_strip (s : str) : visible (strip s) = visible s.
Proof.
  unfold strip.
  destruct (lstrip_split s) as (d1 & Hs1 & Hd1).
  destruct (rstrip_split (lstrip s)) as (d2 & Hs2 & Hd2).
  rewrite Hs1 at 2. rewrite Hs2 at 2.
  rewrite !visible_app, (visible_spacy d1), (visible_spacy d2) by done.
  by rewrite app_nil_r.
Qed.

Lemma length_strip (s : str) : (length (strip s) ≤ length s)%nat.
Proof.
  unfold strip.
  destruct (lstrip_split s) as (d1 & Hs1 & _).
  destruct (rstrip_split (lstrip s)) as (d2 & Hs2 & _).
  rewrite Hs1 at 2. rewrite Hs2 at 2. rewrite !length_app. lia.
Qed.

(** ** Text cleaning *)

(** White space occurs only as single spaces; [after_space] says that the
    character before the string was white space. *)
Fixpoint single_spaced (after_space : bool) (s : str) : bool :=
  match s with
  | [] => true
  | c :: t =>
    if is_space c
    then (c =? 32) && negb after_space && single_spaced true t
    else single_spaced false t
  end.

Lemma is_space_32 : is_space 32 = true.
Proof. reflexivity. Qed.

Lemma collapse_single_spaced (b : bool) (s : str) :
  single_spaced b (collapse_whitespace b s) = true.
Proof.
  revert b. induction s as [|c t IH]; intros b; simpl; [done |].
  destruct (is_space c) eqn:Hc.
  - destruct b; [apply IH |].
    change (single_spaced false (32 :: collapse_whitespace true t))
      with (single_spaced true (collapse_whitespace true t)).
    apply IH.
  - simpl. rewrite Hc. apply IH.
Qed.

Lemma single_spaced_weaken (s : str) :
  single_spaced true s = true → single_spaced false s = true.
Proof.
  destruct s as [|c t]; simpl; [done |].
  destruct (is_space c); [|done]. by rewrite andb_false_r.
Qed.

Lemma single_spaced_lstrip (b : bool) (s : str) :
  single_spaced b s = true → single_spaced false (lstrip s) = true.
Proof.
  revert b. induction s as [|c t IH]; intros b; simpl; [done |].
  destruct (is_space c) eqn:Hc.
  - rewrite !andb_true_iff. intros [_ Ht]. by apply (IH true).
  - simpl. by rewrite Hc.
Qed.

Lemma single_spaced_prefix (b : bool) (a rest : str) :
  single_spaced b (a ++ rest) = true → single_spaced b a = true.
Proof.
  revert b. induction a as [|c t IH]; intros b; simpl; [done |].
  destruct (is_space c).
  - rewrite !andb_true_iff. intros [? ?]. split; [done |]. by apply IH.
  - apply IH.
Qed.

Lemma single_spaced_strip (s : str) :
  single_spaced false s = true → single_spaced false (strip s) = true.
Proof.
  intros Hs. unfold strip.
  apply single_spaced_lstrip in Hs.
  destruct (rstrip_split (lstrip s)) as (d & Hd & _).
  rewrite Hd in Hs. by apply single_spaced_prefix in Hs.
Qed.

Lemma single_spaced_fixed (b : bool) (s : str) :
  single_spaced b s = true → collapse_whitespace b s = s.
Proof.
  revert b. induction s as [|c t IH]; intros b; simpl; [done |].
  destruct (is_space c).
  - rewrite !andb_true_iff, negb_true_iff, N.eqb_eq.
    intros [[-> ->] Ht]. by rewrite IH.
  - intros Ht. by rewrite IH.
Qed.

Lemma single_spaced_inside (b : bool) (pre post : str) (c c' : N) :
  single_spaced b (pre ++ c :: c' :: post) = true →
  is_space c = true → c = 32 ∧ is_space c' = false.
Proof.
  revert b. induction pre as [|x pre IH]; intros b; simpl.
  - intros H Hc. rewrite Hc in H.
    apply andb_true_iff in H as [H1 H2]. apply andb_true_iff in H1 as [H1 _].
    apply N.eqb_eq in H1. split; [done |].
    destruct (is_space c'); [|done]. by rewrite andb_false_r in H2.
  - destruct (is_space x).
    + rewrite !andb_true_iff. intros [_ H]. by apply (IH true).
    + apply (IH false).
Qed.

Lemma clean_text_single_spaced (text : option str) :
  single_spaced false (clean_text text) = true.
Proof.
  destruct text as [[|c t]|]; try done.
  unfold clean_text. apply single_spaced_strip, collapse_single_spaced.
Qed.

Lemma visible_collapse (b : bool) (s : str) :
  visible (collapse_whitespace b s) = visible s.
Proof.
  revert b. induction s as [|c t IH]; intros b; simpl; [done |].
  destruct (is_space c) eqn:Hc; simpl.
  - destruct b; [apply IH |].
    change (visible (32 :: collapse_whitespace true t))
      with (visible (collapse_whitespace true t)).
    apply IH.
  - rewrite Hc. simpl. by rewrite (IH false).
Qed.

(** X1. What [clean_text] returns neither begins nor ends with white
    space, and any white space in it is one space character followed by a
    character that is not white space. *)
Theorem clean_text_normal_form (text : option str) :
  head_nonspace (clean_text text)
  ∧ (∀ t c, clean_text text = t ++ [c] → is_space c = false)
  ∧ (∀ pre c c' post,
       clean_text text = pre ++ c :: c' :: post →
       is_space c = true → c = 32 ∧ is_space c' = false).
Proof.
  split; [|split].
  - destruct text as [[|c t]|]; try done. apply strip_ends.
  - destruct text as [[|c t]|]; try (intros [|? ?] ?; discriminate).
    apply strip_ends.
  - intros pre c c' post Hr.
    apply (single_spaced_inside false pre post). rewrite <- Hr.
    apply clean_text_single_spaced.
Qed.

(** X2. Cleaning a cleaned text changes nothing. *)
Theorem clean_text_idempotent (text : option str) :
  clean_text (Some (clean_text text)) = clean_text text.
Proof.
  pose proof (clean_text_single_spaced text) as Hs.
  assert (Hstrip : strip (clean_text text) = clean_text text).
  { destruct text as [[|c t]|]; try done. unfold clean_text. apply strip_idemp. }
  destruct (clean_text text) as [|c r] eqn:Hr; [done |].
  unfold clean_text at 1. by rewrite (single_spaced_fixed false _ Hs).
Qed.

(** X3. [clean_text] keeps every character that is not white space, in
    order; for [None] and the empty string it returns the empty string. *)
Theorem clean_text_keeps_visible :
  (∀ text : str, visible (clean_text (Some text)) = visible text)
  ∧ clean_text None = []
  ∧ clean_text (Some []) = [].
Proof.
  repeat split. intros [|c t]; [done |].
  unfold clean_text. by rewrite visible_strip, visible_collapse.
Qed.

(** ** Deduplicator, continued *)

(** White space below 128, written out: tab to carriage return, the four
    separators from 28 to 31, and the space. *)
Definition ascii_blank (c : N) : bool :=
  ((9 <=? c) && (c <=? 13)) || ((28 <=? c) && (c <=? 32)).

Definition blank (s : str) : Prop := Forall (λ c, ascii_blank c = true) s.

(** Neither end of the string is white space. *)
Definition trimmed (m : str) : Prop := head_nonspace m ∧ head_nonspace (rev m).

Lemma is_space_unfold (c : N) :
  is_space c = if c <? 128 then ascii_blank c else unicode_space c.
Proof. reflexivity. Qed.

Lemma ascii_blank_bound (c : N) : ascii_blank c = true → c ≤ 32.
Proof.
  unfold ascii_blank.
  rewrite orb_true_iff, !andb_true_iff, !N.leb_le. lia.
Qed.

Lemma blank_spacy (s : str) : blank s → Forall spacy s.
Proof.
  intros Hs. eapply Forall_impl; [exact Hs |].
  intros c Hc. unfold spacy. rewrite is_space_unfold.
  pose proof (ascii_blank_bound c Hc) as Hb.
  by rewrite (proj2 (N.ltb_lt c 128)) by lia.
Qed.

Lemma blank_lower (s : str) : blank s → lower s = s.
Proof.
  intros Hs. rewrite lower_ascii.
  - induction Hs as [|c t Hc _ IH]; [done |].
    rewrite fmap_cons, IH. f_equal.
    apply ascii_blank_bound in Hc. unfold ascii_fold.
    by rewrite (proj2 (N.leb_gt 65 c)) by lia.
  - eapply Forall_impl; [exact Hs |]. intros c Hc.
    apply ascii_blank_bound in Hc. simpl. lia.
Qed.

Lemma lstrip_spacy_app (l s : str) : Forall spacy l → lstrip (l ++ s) = lstrip s.
Proof.
  induction 1 as [|c l Hc _ IH]; [done |]. simpl.
  unfold spacy in Hc. by rewrite Hc.
Qed.

Lemma strip_unique (l m r : str) :
  Forall spacy l → Forall spacy r → trimmed m → strip (l ++ m ++ r) = m.
Proof.
  intros Hl Hr [Hm Hm']. unfold strip. rewrite lstrip_spacy_app by done.
  destruct m as [|c m].
  - simpl. rewrite <- (app_nil_r r), lstrip_spacy_app by done. reflexivity.
  - rewrite (lstrip_fixed ((c :: m) ++ r)) by done.
    unfold rstrip. rewrite rev_app_distr, lstrip_spacy_app by by apply Forall_rev.
    rewrite lstrip_fixed by done. apply rev_involutive.
Qed.

Lemma strip_trimmed (s : str) : trimmed (strip s).
Proof.
  split; [apply strip_ends |].
  unfold strip, rstrip. rewrite rev_involutive. apply lstrip_head.
Qed.

Lemma strip_split (s : str) :
  ∃ l r, s = l ++ strip s ++ r ∧ Forall spacy l ∧ Forall spacy r.
Proof.
  destruct (lstrip_split s) as (l & Hs & Hl).
  destruct (rstrip_split (lstrip s)) as (r & Hr & Hr').
  exists l, r. split; [| done]. unfold strip. by rewrite <- Hr.
Qed.

Lemma strip_around (l s r : str) :
  Forall spacy l → Forall spacy r → strip (l ++ s ++ r) = strip s.
Proof.
  intros Hl Hr. destruct (strip_split s) as (l' & r' & Hs & Hl' & Hr').
  rewrite Hs at 1.
  replace (l ++ (l' ++ strip s ++ r') ++ r)
    with ((l ++ l') ++ strip s ++ (r' ++ r)) by (by rewrite <- !app_assoc).
  apply strip_unique; [by apply Forall_app | by apply Forall_app |].
  apply strip_trimmed.
Qed.

(** A title in other case and with white space around it has the same key. *)
Lemma norm_title_variant (t t' l r : str) :
  same_up_to_case t t' → blank l → blank r →
  strip (lower (l ++ t' ++ r)) = strip (lower t).
Proof.
  intros Ht Hl Hr.
  rewrite !lower_app, (blank_lower l), (blank_lower r) by done.
  rewrite <- (lower_same_up_to_case t t') by done.
  apply strip_around; by apply blank_spacy.
Qed.

Lemma remove_duplicates_app_elem (l l' : list NewsItem) (x : NewsItem) :
  x ∈ remove_duplicates l → x ∈ remove_duplicates (l ++ l').
Proof.
  intros Hx. induction l' as [|y l' IH] using rev_ind.
  - by rewrite app_nil_r.
  - rewrite app_assoc, remove_duplicates_snoc.
    destruct (decide _); [| done]. apply elem_of_app. by left.
Qed.

Lemma remove_duplicates_later_dropped
    (before : list NewsItem) (a : NewsItem) (between : list NewsItem) (b : NewsItem) :
  remove_duplicates (before ++ [a]) = remove_duplicates before ++ [a] →
  norm_title a = norm_title b ∨ item_url a = item_url b →
  remove_duplicates (before ++ [a] ++ between ++ [b])
  = remove_duplicates (before ++ [a] ++ between).
Proof.
  intros Ha Hab.
  assert (a ∈ remove_duplicates (before ++ [a] ++ between)) as Hin.
  { rewrite app_assoc. apply remove_duplicates_app_elem.
    rewrite Ha. apply elem_of_app. right. by apply list_elem_of_singleton. }
  replace (before ++ [a] ++ between ++ [b])
    with ((before ++ [a] ++ between) ++ [b]) by (by rewrite <- !app_assoc).
  rewrite remove_duplicates_snoc. rewrite decide_False; [done |].
  intros [Hnt Hnu]. destruct Hab as [Hab|Hab].
  - apply Hnt. rewrite <- Hab. by apply list_elem_of_fmap_2.
  - apply Hnu. rewrite <- Hab. by apply list_elem_of_fmap_2.
Qed.

(** C4 (as the code has it).  [remove_duplicates] keeps the order of the
    input and the first of any duplicates: reading the batch from the
    left, an item is kept exactly when neither its lower-cased, stripped
    title nor its URL is that of an item kept before it.  An item that
    follows a kept item with the same such title or the same URL is
    dropped; so of a batch of two such items only the first is left, and
    of two items with an empty URL, whatever their titles.

    Lower-cased and stripped are what [str.lower] and [str.strip] make of
    it: below 128 the capitals A to Z go to a to z, white space is tab to
    carriage return, 28 to 31 and the space, and from 128 on the Unicode
    tables decide; [strip] takes white space off both ends and nothing
    else.  So a title in other case and with white space around it is a
    duplicate, and one with other white space inside it is not. *)
Theorem remove_duplicates_spec :
  remove_duplicates [] = []
  ∧ (∀ news_list news,
       remove_duplicates (news_list ++ [news])
       = if decide ((norm_title news ∉ (norm_title <$> remove_duplicates news_list))
                    ∧ (item_url news ∉ (item_url <$> remove_duplicates news_list)))
         then remove_duplicates news_list ++ [news]
         else remove_duplicates news_list)
  ∧ (∀ news_list, remove_duplicates news_list `sublist_of` news_list)
  ∧ (∀ a b,
       remove_duplicates [a; b]
       = if decide (norm_title a = norm_title b ∨ item_url a = item_url b)
         then [a] else [a; b])
  ∧ (∀ a b, item_url a = [] → item_url b = [] → remove_duplicates [a; b] = [a])
  ∧ (∀ before a between b,
       remove_duplicates (before ++ [a]) = remove_duplicates before ++ [a] →
       norm_title a = norm_title b ∨ item_url a = item_url b →
       remove_duplicates (before ++ [a] ++ between ++ [b])
       = remove_duplicates (before ++ [a] ++ between))
  ∧ (∀ t : str,
       lower t
       = flat_map
           (λ c, if c <? 128
                 then [if (65 <=? c) && (c <=? 90) then c + 32 else c]
                 else unicode_lower c) t)
  ∧ (∀ c : N,
       is_space c
       = if c <? 128
         then ((9 <=? c) && (c <=? 13)) || ((28 <=? c) && (c <=? 32))
         else unicode_space c)
  ∧ (∀ s : str,
       (∃ l r, s = l ++ strip s ++ r
               ∧ Forall (λ c, is_space c = true) l
               ∧ Forall (λ c, is_space c = true) r)
       ∧ head_nonspace (strip s) ∧ head_nonspace (rev (strip s)))
  ∧ (∀ (a b : NewsItem) (l t' r : str),
       same_up_to_case (default [] (title a)) t' → blank l → blank r →
       title b = Some (l ++ t' ++ r) →
       norm_title b = norm_title a ∧ remove_duplicates [a; b] = [a])
  ∧ remove_duplicates
      [ sample_news "OpenAI launches GPT-5" "https://a" Absent;
        sample_news "  OPENAI Launches gpt-5 " "https://b" Absent ]
    = [ sample_news "OpenAI launches GPT-5" "https://a" Absent ]
  ∧ remove_duplicates
      [ sample_news "OpenAI launches GPT-5" "https://a" Absent;
        sample_news "OpenAI  launches GPT-5" "https://b" Absent ]
    = [ sample_news "OpenAI launches GPT-5" "https://a" Absent;
        sample_news "OpenAI  launches GPT-5" "https://b" Absent ].
Proof.
  split; [done |].
  split; [exact remove_duplicates_snoc |].
  split; [exact remove_duplicates_sublist |].
  split; [exact remove_duplicates_pair |].
  split.
  { intros a b Ha Hb. rewrite remove_duplicates_pair, decide_True; [done |].
    right. congruence. }
  split; [exact remove_duplicates_later_dropped |].
  split; [exact lower_unfold |].
  split; [exact is_space_unfold |].
  split.
  { intros s. split; [apply strip_split |]. apply strip_trimmed. }
  split.
  { intros a b l t' r Ht Hl Hr Hb.
    assert (norm_title b = norm_title a) as Hn.
    { unfold norm_title. rewrite Hb. simpl. by apply norm_title_variant. }
    split; [done |].
    rewrite remove_duplicates_pair, decide_True; [done |]. by left. }
  split.
  - rewrite remove_duplicates_pair, decide_True; [done |].
    left. vm_compute. reflexivity.
  - rewrite remove_duplicates_pair, decide_False; [done |].
    intros [H|H]; vm_compute in H; discriminate H.
Qed.

Lemma remove_duplicates_distinct (news_list : list NewsItem) :
  NoDup (norm_title <$> remove_duplicates news_list)
  ∧ NoDup (item_url <$> remove_duplicates news_list).
Proof.
  induction news_list as [|news l [IHt IHu]] using rev_ind.
  - split; constructor.
  - rewrite remove_duplicates_snoc.
    destruct (decide _) as [[Hnt Hnu]|_]; [|done].
    rewrite !fmap_snoc. split; apply NoDup_app; (split; [done |]).
    all: split; [|apply NoDup_singleton].
    all: intros k Hk Hk'; apply list_elem_of_singleton in Hk'; by subst.
Qed.

Lemma remove_duplicates_fixed (news_list : list NewsItem) :
  NoDup (norm_title <$> news_list) → NoDup (item_url <$> news_list) →
  remove_duplicates news_list = news_list.
Proof.
  induction news_list as [|news l IH] using rev_ind; [done |].
  rewrite !fmap_snoc. intros Ht Hu.
  apply NoDup_app in Ht as (Ht & Hnt & _). apply NoDup_app in Hu as (Hu & Hnu & _).
  rewrite remove_duplicates_snoc, IH by done.
  rewrite decide_True; [done |]. split; intros Hin.
  - apply (Hnt _ Hin). by apply list_elem_of_singleton.
  - apply (Hnu _ Hin). by apply list_elem_of_singleton.
Qed.

(** X4. In what [remove_duplicates] returns no two items have the same
    lower-cased, stripped title and no two have the same URL. *)
Theorem remove_duplicates_no_repeats (news_list : list NewsItem) :
  NoDup ((λ news, strip (lower (default [] (title news))))
           <$> remove_duplicates news_list)
  ∧ NoDup ((λ news, default [] (url news)) <$> remove_duplicates news_list).
Proof. apply remove_duplicates_distinct. Qed.

(** X5. Removing duplicates twice is removing them once; a batch without
    repeated titles or URLs is returned as it is. *)
Theorem remove_duplicates_idempotent :
  (∀ news_list,
     remove_duplicates (remove_duplicates news_list) = remove_duplicates news_list)
  ∧ (∀ news_list,
       NoDup (norm_title <$> news_list) → NoDup (item_url <$> news_list) →
       remove_duplicates news_list = news_list).
Proof.
  split; [|exact remove_duplicates_fixed].
  intros news_list. apply remove_duplicates_fixed; apply remove_duplicates_distinct.
Qed.

(** ** Keyword matcher, continued *)

Lemma extract_keywords_nonempty (t : str) :
  extract_keywords_from_text (Some t) ≠ [] ↔ ∃ k, k ∈ AI_KEYWORDS ∧ occurs_ci k t.
Proof.
  destruct t as [|c t].
  - simpl. split; [done |]. intros (k & Hk & Ho).
    by destruct (no_keyword_in_empty_text k).
  - unfold extract_keywords_from_text.
    rewrite collect_keywords_filter, app_nil_l. split.
    + intros Hne.
      destruct (filter _ AI_KEYWORDS) as [|k ks] eqn:Hf; [done |].
      assert (Hk : k ∈ filter (λ k, substring_of (lower k) (lower (c :: t))) AI_KEYWORDS)
        by (rewrite Hf; left).
      apply list_elem_of_filter in Hk as [? ?]. by exists k.
    + intros (k & Hk & Ho) Hf.
      assert (Hin : k ∈ filter (λ k, substring_of (lower k) (lower (c :: t))) AI_KEYWORDS)
        by by apply list_elem_of_filter.
      rewrite Hf in Hin. by apply not_elem_of_nil in Hin.
Qed.

(** X6. [contains_ai_keywords] accepts a text exactly when
    [extract_keywords_from_text] finds a keyword in it and no exclusion
    keyword occurs in it; so whatever it accepts has a keyword to
    extract. *)
Theorem contains_ai_keywords_extract :
  (∀ t : str,
     contains_ai_keywords (Some t) = true ↔
     extract_keywords_from_text (Some t) ≠ []
     ∧ (∀ k, k ∈ EXCLUDE_KEYWORDS → ¬ occurs_ci k t))
  ∧ (∀ text : option str,
       contains_ai_keywords text = true → extract_keywords_from_text text ≠ []).
Proof.
  assert (Hmain : ∀ t : str,
    contains_ai_keywords (Some t) = true ↔
    extract_keywords_from_text (Some t) ≠ []
    ∧ (∀ k, k ∈ EXCLUDE_KEYWORDS → ¬ occurs_ci k t)).
  { intros t. rewrite extract_keywords_nonempty. destruct t as [|c t].
    - simpl. split; [done |]. intros [(k & Hk & Ho) _].
      by destruct (no_keyword_in_empty_text k).
    - unfold contains_ai_keywords.
      rewrite andb_true_iff, negb_true_iff, existsb_occurs.
      rewrite <- not_true_iff_false, existsb_occurs. split.
      + intros [Hin Hex]. split; [done |]. intros k Hk Ho. apply Hex. eauto.
      + intros [Hin Hex]. split; [done |]. intros (k & Hk & Ho). by apply (Hex k). }
  split; [exact Hmain |].
  intros [t|]; [|done]. intros Ht. by apply Hmain in Ht as [? _].
Qed.

(** ** Language filter, continued *)

(** A letter of the ASCII alphabet. *)
Definition ascii_letter (c : N) : bool := in_range 65 90 c || in_range 97 122 c.

(** An ASCII character that the filter does not count as unwanted. *)
Definition ascii_wanted (c : N) : bool := (c <? 128) && negb (is_unwanted c).

Lemma count_matching_cons (p : N → bool) (c : N) (s : str) :
  count_matching p (c :: s)
  = ((if p c then 1 else 0) + count_matching p s)%nat.
Proof. unfold count_matching. simpl. by destruct (p c). Qed.

Lemma count_matching_app (p : N → bool) (a b : str) :
  count_matching p (a ++ b) = (count_matching p a + count_matching p b)%nat.
Proof. unfold count_matching. by rewrite List.filter_app, length_app. Qed.

Lemma lower_char_ascii_counts (c : N) :
  (c <? 128) = true →
  count_matching is_latin (lower_char c) = (if ascii_letter c then 1 else 0)%nat
  ∧ count_matching is_cyrillic (lower_char c) = 0%nat.
Proof.
  intros Hc. unfold lower_char. rewrite Hc.
  apply N.ltb_lt in Hc.
  unfold count_matching, is_latin, is_cyrillic, ascii_letter, in_range.
  destruct (65 <=? c) eqn:H1, (c <=? 90) eqn:H2; simpl.
  all: repeat match goal with
       | |- context [?a <=? ?b] => destruct (N.leb_spec a b)
       | |- context [?a =? ?b] => destruct (N.eqb_spec a b)
       end; simpl; try done.
  all: apply N.leb_le in H1 || apply N.leb_gt in H1.
  all: apply N.leb_le in H2 || apply N.leb_gt in H2.
  all: lia.
Qed.

Lemma ascii_text_counts (text : str) :
  Forall (λ c, ascii_wanted c = true) text →
  count_matching is_latin (lower text) = count_matching ascii_letter text
  ∧ count_matching is_cyrillic (lower text) = 0%nat
  ∧ count_matching is_unwanted text = 0%nat.
Proof.
  induction 1 as [|c t Hc _ (IH1 & IH2 & IH3)]; [done |].
  unfold ascii_wanted in Hc. apply andb_true_iff in Hc as [Hc Hw].
  apply negb_true_iff in Hw.
  destruct (lower_char_ascii_counts c Hc) as [Hl Hy].
  change (lower (c :: t)) with (lower_char c ++ lower t).
  rewrite !count_matching_app, !count_matching_cons, Hl, Hy, IH1, IH2, IH3, Hw.
  done.
Qed.

(** X7. A text that passes the language filter has at least three
    Latin or Cyrillic letters and no unwanted character.  A text of ASCII
    characters none of which is unwanted (letters, digits, underscore,
    white space, the punctuation let through) passes as soon as it has
    three letters. *)
Theorem is_english_or_russian_ascii :
  (∀ text : str,
     is_english_or_russian (Some text) = true →
     (3 ≤ count_matching is_latin (lower text)
          + count_matching is_cyrillic (lower text))%nat
     ∧ count_matching is_unwanted text = 0%nat)
  ∧ (∀ text : str,
       Forall (λ c, ascii_wanted c = true) text →
       (3 ≤ count_matching ascii_letter text)%nat →
       is_english_or_russian (Some text) = true).
Proof.
  split.
  - intros [|c t]; [done |]. unfold is_english_or_russian.
    destruct (_ =? 0)%nat; [done |].
    destruct (0 <? _)%nat eqn:Hu; [done |].
    rewrite andb_true_iff. intros [H3 _].
    apply Nat.leb_le in H3. apply Nat.ltb_ge in Hu.
    split; [by rewrite Nat.add_comm | by apply Nat.le_0_r].
  - intros text Hok H3.
    destruct (ascii_text_counts text Hok) as (Hl & Hy & Hu).
    destruct text as [|c t]; [unfold count_matching in H3; simpl in H3; lia |].
    unfold is_english_or_russian. rewrite Hl, Hy, Hu.
    rewrite Nat.add_0_l. unfold ratio_above_080.
    destruct (Nat.eqb_spec (count_matching ascii_letter (c :: t)) 0); [lia |].
    simpl (0 <? 0)%nat. cbv iota.
    apply andb_true_iff. split; [by apply Nat.leb_le |].
    apply orb_true_iff. right. apply Nat.ltb_lt. lia.
Qed.

(** ** Orchestrator, continued *)

(** How the sort by date sees the date of an item: naive (an absent key
    stands for [datetime.min]) or aware; [None] for the value [None]. *)
Definition date_class (x : NewsItem) : option bool :=
  match published_date x with
  | Absent => Some false
  | Null => None
  | Present d => Some (bool_decide (utcoffset d ≠ None))
  end.

Definition same_class (aware : bool) (l : list NewsItem) : bool :=
  forallb (λ x, bool_decide (date_class x = Some aware)) l.

(** At most one item, or dates that are all naive, or all aware. *)
Definition dates_comparable (l : list NewsItem) : bool :=
  (length l <=? 1)%nat || same_class false l || same_class true l.

(** What is left of a batch when the sort by date begins. *)
Definition survivors (news_list : list NewsItem) : list NewsItem :=
  filter_news_by_relevance (remove_duplicates news_list) 10.

Lemma date_key_lt_class (x y : NewsItem) :
  date_key_lt (date_key x) (date_key y)
  = match date_class x, date_class y with
    | Some a, Some b =>
      if bool_decide (a = b) then Ok (date_instant x <? date_instant y)%Z
      else Raise TypeError
    | _, _ => Raise TypeError
    end.
Proof.
  unfold date_key_lt, date_key, date_class, date_instant, datetime_lt,
    datetime_cmp, utc_instant.
  destruct (published_date x) as [| |[wx [ox|]]],
    (published_date y) as [| |[wy [oy|]]]; simpl; try done.
  all: by rewrite ?Z.sub_0_r.
Qed.

Lemma same_class_Forall (b : bool) (l : list NewsItem) :
  same_class b l = true ↔ Forall (λ x, date_class x = Some b) l.
Proof.
  unfold same_class. rewrite forallb_forall, Forall_forall.
  split; intros H x Hx.
  - eapply bool_decide_eq_true_1, H. by apply list_elem_of_In.
  - apply bool_decide_eq_true_2, H. by apply list_elem_of_In.
Qed.

Lemma insert_desc_by_same_class (b : bool) (x : NewsItem) (l : list NewsItem) :
  date_class x = Some b → Forall (λ y, date_class y = Some b) l →
  insert_desc_by date_key_lt date_key x l = Ok (insert_desc date_instant x l).
Proof.
  intros Hx. induction 1 as [|y t Hy Ht IH]; simpl; [done |].
  rewrite date_key_lt_class, Hx, Hy, bool_decide_eq_true_2 by done. simpl.
  destruct (date_instant x <? date_instant y)%Z; [|done].
  by rewrite IH.
Qed.

Lemma insert_desc_by_other_class (b : bool) (x y : NewsItem) (l : list NewsItem) :
  date_class x ≠ Some b → date_class y = Some b →
  insert_desc_by date_key_lt date_key x (y :: l) = Raise TypeError.
Proof.
  intros Hx Hy. simpl. rewrite date_key_lt_class, Hy.
  destruct (date_class x) as [a|]; [|done].
  rewrite bool_decide_eq_false_2; [done |]. congruence.
Qed.

Lemma sort_desc_nonempty {A} (key : A → Z) (x : A) (l : list A) :
  ∃ z r, sort_desc key (x :: l) = z :: r.
Proof.
  destruct (sort_desc key (x :: l)) as [|z r] eqn:Hr; [|by eauto].
  apply (f_equal length) in Hr.
  rewrite (Permutation_length (sort_desc_perm key (x :: l))) in Hr.
  discriminate Hr.
Qed.

(** One more item in front of a batch of class [b] whose sort succeeds. *)
Lemma sort_desc_by_date_cons (b : bool) (x y : NewsItem) (t : list NewsItem) :
  same_class b (y :: t) = true →
  sort_desc_by date_key_lt date_key (y :: t) = Ok (sort_desc date_instant (y :: t)) →
  sort_desc_by date_key_lt date_key (x :: y :: t)
  = if bool_decide (date_class x = Some b)
    then Ok (sort_desc date_instant (x :: y :: t))
    else Raise TypeError.
Proof.
  intros Hb Hsort.
  change (sort_desc_by date_key_lt date_key (x :: y :: t))
    with (sort_desc_by date_key_lt date_key (y :: t)
          ≫= insert_desc_by date_key_lt date_key x).
  rewrite Hsort. cbn [mbind result_bind].
  apply same_class_Forall in Hb.
  assert (Hs : Forall (λ z, date_class z = Some b) (sort_desc date_instant (y :: t)))
    by by rewrite sort_desc_perm.
  case_bool_decide as Hx.
  - by rewrite (insert_desc_by_same_class b).
  - destruct (sort_desc_nonempty date_instant y t) as (z & r & Hr).
    rewrite Hr in Hs |- *.
    apply (insert_desc_by_other_class b); [done |]. by apply Forall_inv in Hs.
Qed.

Lemma sort_desc_by_date (l : list NewsItem) :
  sort_desc_by date_key_lt date_key l
  = if dates_comparable l then Ok (sort_desc date_instant l) else Raise TypeError.
Proof.
  induction l as [|x t IH]; [done |].
  destruct t as [|y t]; [done |].
  assert (Hsame : ∀ b, same_class b (x :: y :: t)
    = bool_decide (date_class x = Some b) && same_class b (y :: t)) by done.
  assert (Hcmp : dates_comparable (x :: y :: t)
    = same_class false (x :: y :: t) || same_class true (x :: y :: t)) by done.
  rewrite Hcmp, !Hsame.
  destruct (same_class false (y :: t)) eqn:Hn;
    [|destruct (same_class true (y :: t)) eqn:Ha].
  - (* the rest is naive *)
    assert (Hc : dates_comparable (y :: t) = true)
      by (unfold dates_comparable; rewrite Hn; by destruct (_ <=? _)%nat).
    rewrite Hc in IH. rewrite (sort_desc_by_date_cons false) by done.
    assert (Ha : same_class true (y :: t) = false).
    { apply not_true_iff_false. intros Ha.
      apply same_class_Forall, Forall_inv in Hn.
      apply same_class_Forall, Forall_inv in Ha. congruence. }
    rewrite Ha, andb_true_r, andb_false_r, orb_false_r. done.
  - (* the rest is aware *)
    assert (Hc : dates_comparable (y :: t) = true).
    { unfold dates_comparable. rewrite Ha. by rewrite orb_true_r. }
    rewrite Hc in IH. rewrite (sort_desc_by_date_cons true) by done.
    by rewrite andb_false_r, andb_true_r, orb_false_l.
  - (* the rest is mixed, or holds [None] *)
    rewrite !andb_false_r.
    change (sort_desc_by date_key_lt date_key (x :: y :: t))
      with (sort_desc_by date_key_lt date_key (y :: t)
            ≫= insert_desc_by date_key_lt date_key x).
    destruct (dates_comparable (y :: t)) eqn:Hc; [|by rewrite IH].
    unfold dates_comparable in Hc. rewrite Hn, Ha, !orb_false_r in Hc.
    destruct t as [|? ?]; [|discriminate Hc].
    simpl in Hn, Ha. rewrite andb_true_r in Hn, Ha.
    apply bool_decide_eq_false in Hn, Ha.
    cbn. rewrite date_key_lt_class.
    destruct (date_class x), (date_class y) as [[|]|]; done.
Qed.

(** X8. [process_news] removes duplicates, keeps the items that pass the
    language filter with a score of 10 or more, and sorts what is left by
    date, newest first.  It returns when at most one item is left or the
    dates left are all naive (an absent date counting as such) or all
    aware, and raises [TypeError] in every other case. *)
Theorem process_news_outcome (news_list : list NewsItem) :
  process_news news_list
  = if dates_comparable (survivors news_list)
    then Ok (sort_desc date_instant (survivors news_list))
    else Raise TypeError.
Proof. unfold process_news. apply sort_desc_by_date. Qed.

Section LexicographicSort.

Context {A : Type} (key1 key2 : A → Z).

(** Descending by the first key and, where it is equal, by the second. *)
Definition lex_ge (a b : A) : Prop :=
  (key1 b < key1 a)%Z ∨ (key1 b = key1 a ∧ key2 b ≤ key2 a)%Z.

Lemma insert_desc_lex (x : A) (l : list A) :
  StronglySorted lex_ge l → Forall (λ y, (key2 y ≤ key2 x)%Z) l →
  StronglySorted lex_ge (insert_desc key1 x l).
Proof.
  induction 1 as [|y t Ht IH Hy]; intros Hx; simpl.
  - repeat constructor.
  - apply Forall_cons in Hx as [Hxy Hxt].
    destruct (key1 x <? key1 y)%Z eqn:Hlt.
    + apply Z.ltb_lt in Hlt. constructor; [by apply IH |].
      rewrite insert_desc_perm. constructor; [by left | done].
    + apply Z.ltb_ge in Hlt.
      constructor; [by constructor |].
      assert (Hy' : lex_ge x y) by (unfold lex_ge; lia).
      constructor; [done |].
      apply Forall_forall. intros z Hz.
      rewrite Forall_forall in Hy, Hxt.
      specialize (Hy z Hz). specialize (Hxt z Hz).
      unfold lex_ge in *. lia.
Qed.

Lemma sort_desc_lex (l : list A) :
  StronglySorted (key_ge key2) l → StronglySorted lex_ge (sort_desc key1 l).
Proof.
  induction 1 as [|x t Ht IH Hx]; simpl; [constructor |].
  apply insert_desc_lex; [done |]. by rewrite sort_desc_perm.
Qed.

End LexicographicSort.

(** X9. What [process_news] returns is a rearrangement of the items left
    after deduplication and filtering, in descending order of the time
    compared by the sort, items of equal time in descending order of
    relevance score; every item has a score of at least 10. *)
Theorem process_news_order (news_list r : list NewsItem) :
  process_news news_list = Ok r →
  r ≡ₚ survivors news_list
  ∧ StronglySorted
      (λ a b, (date_instant b < date_instant a)%Z
              ∨ (date_instant b = date_instant a
                 ∧ default 0 (relevance_score b) ≤ default 0 (relevance_score a))%Z) r
  ∧ Forall (λ n, ∃ score, relevance_score n = Some score ∧ (10 ≤ score)%Z) r.
Proof.
  unfold process_news. fold (survivors news_list). rewrite sort_desc_by_date.
  destruct (dates_comparable _); [|done]. intros [= <-].
  split; [apply sort_desc_perm | split].
  - apply (sort_desc_lex date_instant sort_key).
    unfold survivors. rewrite filter_news_by_relevance_kept.
    apply (sort_desc_sorted sort_key).
  - apply Forall_forall. intros n Hn.
    rewrite sort_desc_perm in Hn. unfold survivors in Hn.
    rewrite filter_news_by_relevance_kept, sort_desc_perm in Hn.
    apply elem_of_kept in Hn as (news & _ & _ & Hs & ->). by eexists.
Qed.

(** ** Digest text *)

Lemma slice_to_length {A} (l : list A) : slice_to l (Z.of_nat (length l)) = l.
Proof.
  unfold slice_to.
  destruct (Z.ltb_spec (Z.of_nat (length l)) 0); [lia |].
  rewrite Nat2Z.id. apply firstn_all.
Qed.

(** X10. The text that [send_news_digest] sends is the no-news message
    for an empty list and otherwise the header followed by the block of
    every item of the list: passing the length of the list as [max_items]
    cuts nothing off. *)
Theorem digest_text_complete :
  (∀ current_date, digest_text current_date [] = NO_NEWS_MESSAGE)
  ∧ (∀ current_date news rest,
       digest_text current_date (news :: rest)
       = format_header current_date
         ++ join [10] (map format_news_item (news :: rest)))
  ∧ (∀ current_date news_list,
       digest_text current_date news_list
       = format_news_for_telegram current_date news_list
           (Z.of_nat (length news_list))).
Proof.
  split; [done | split].
  - intros current_date news rest. unfold digest_text, format_news_for_telegram.
    by rewrite slice_to_length.
  - by intros current_date [|news rest].
Qed.

(** ** Splitting a long message *)

Lemma split_on_nonempty (sep : N) (s : str) : split_on sep s ≠ [].
Proof.
  destruct s as [|c t]; simpl; [done |].
  destruct (c =? sep); [done |]. by destruct (split_on sep t).
Qed.

Lemma is_space_newline : is_space 10 = true.
Proof. reflexivity. Qed.

Lemma visible_newline (s : str) : visible (s ++ newline) = visible s.
Proof. rewrite visible_app. apply app_nil_r. Qed.

Lemma visible_split_on (s : str) :
  visible s = concat (map visible (split_on 10 s)).
Proof.
  induction s as [|c t IH]; [done |].
  cbn [split_on]. destruct (N.eqb_spec c 10) as [->|Hc].
  - change (visible (10 :: t)) with (visible t). by rewrite IH.
  - pose proof (split_on_nonempty 10 t) as Hne.
    destruct (split_on 10 t) as [|w ws]; [done |].
    cbn [map concat] in *. unfold visible in *. simpl.
    destruct (negb (is_space c)); by rewrite IH.
Qed.

Lemma visible_flush_part (parts : list str) (current_part : str) :
  visible (concat (flush_part parts current_part))
  = visible (concat parts) ++ visible current_part.
Proof.
  destruct current_part as [|c t]; simpl.
  - by rewrite app_nil_r.
  - rewrite concat_app, visible_app. simpl. by rewrite app_nil_r, visible_strip.
Qed.

Lemma split_message_fold_visible (max_length : Z) (lines : list str)
    (st : list str * str) :
  visible (concat (fold_left (split_message_step max_length) lines st).1)
    ++ visible (fold_left (split_message_step max_length) lines st).2
  = visible (concat st.1) ++ visible st.2 ++ concat (map visible lines).
Proof.
  revert st. induction lines as [|line lines IH]; intros [parts current]; simpl.
  - by rewrite app_nil_r.
  - rewrite IH. destruct (_ <=? _)%Z; simpl.
    + rewrite (app_assoc current), visible_newline, visible_app.
      by rewrite <- !app_assoc.
    + rewrite visible_flush_part, visible_newline. by rewrite <- !app_assoc.
Qed.

(** X11. The parts of a split message hold, between them and in order,
    every character of the message that is not white space: splitting
    loses nothing but white space. *)
Theorem split_message_keeps_visible (message : str) (max_length : Z) :
  visible (concat (split_message message max_length)) = visible message.
Proof.
  unfold split_message.
  pose proof (split_message_fold_visible max_length (split_on 10 message) ([], []))
    as H.
  destruct (fold_left _ _ _) as [parts current]. simpl in H.
  by rewrite visible_flush_part, H, visible_split_on.
Qed.

(** A string that [strip] leaves as it is. *)
Definition stripped (s : str) : Prop := strip s = s.

Lemma flush_part_stripped (parts : list str) (current_part : str) :
  Forall stripped parts → Forall stripped (flush_part parts current_part).
Proof.
  intros Hp. destruct current_part as [|c t]; simpl; [done |].
  apply Forall_app. split; [done |].
  constructor; [apply strip_idemp | constructor].
Qed.

Lemma split_message_fold_stripped (max_length : Z) (lines : list str)
    (st : list str * str) :
  Forall stripped st.1 →
  Forall stripped (fold_left (split_message_step max_length) lines st).1.
Proof.
  revert st. induction lines as [|line lines IH]; intros [parts current] Hp;
    simpl; [done |].
  apply IH. destruct (_ <=? _)%Z; simpl; [done |].
  by apply flush_part_stripped.
Qed.

Lemma split_message_fold_current (max_length : Z) (lines : list str)
    (st : list str * str) :
  lines ≠ [] → (fold_left (split_message_step max_length) lines st).2 ≠ [].
Proof.
  induction lines as [|line lines _] using rev_ind; [done |]. intros _.
  rewrite fold_left_app. simpl.
  destruct (fold_left _ lines st) as [parts current]. simpl.
  destruct (_ <=? _)%Z; simpl; unfold newline.
  - rewrite app_assoc. apply not_eq_sym, app_cons_not_nil.
  - apply not_eq_sym, app_cons_not_nil.
Qed.

Lemma split_message_stripped (message : str) (max_length : Z) :
  Forall stripped (split_message message max_length).
Proof.
  unfold split_message.
  assert (H0 : Forall stripped (([], []) : list str * str).1) by constructor.
  pose proof (split_message_fold_stripped max_length (split_on 10 message) _ H0) as H.
  destruct (fold_left _ _ _) as [parts current]. by apply flush_part_stripped.
Qed.

Lemma split_message_nonempty (message : str) (max_length : Z) :
  (1 ≤ length (split_message message max_length))%nat.
Proof.
  unfold split_message.
  pose proof (split_message_fold_current max_length (split_on 10 message)
    ([], []) (split_on_nonempty 10 message)) as H.
  destruct (fold_left _ _ _) as [parts [|c t]]; [done |].
  simpl. rewrite length_app. simpl. lia.
Qed.

(** X12. [_split_message] always returns at least one part, whatever the
    message and the limit, and [strip] would change none of the parts:
    no part begins or ends with white space. *)
Theorem split_message_parts (message : str) (max_length : Z) :
  (1 ≤ length (split_message message max_length))%nat
  ∧ Forall (λ part, strip part = part) (split_message message max_length)
  ∧ Forall (λ part, head_nonspace part
                    ∧ ∀ t c, part = t ++ [c] → is_space c = false)
      (split_message message max_length).
Proof.
  split; [apply split_message_nonempty | split; [apply split_message_stripped |]].
  eapply Forall_impl; [apply split_message_stripped |]. intros part Hp. simpl.
  unfold stripped in Hp. rewrite <- Hp. apply strip_ends.
Qed.

Lemma split_message_fold_bound (max_length : Z) (lines : list str)
    (st : list str * str) :
  Forall (λ line, (len line + 1 ≤ max_length)%Z) lines →
  Forall (λ part, (len part ≤ max_length)%Z) st.1 →
  (st.2 = [] ∨ (len st.2 ≤ max_length)%Z) →
  Forall (λ part, (len part ≤ max_length)%Z)
    (fold_left (split_message_step max_length) lines st).1
  ∧ ((fold_left (split_message_step max_length) lines st).2 = []
     ∨ (len (fold_left (split_message_step max_length) lines st).2 ≤ max_length)%Z).
Proof.
  revert st. induction lines as [|line lines IH]; intros [parts current] Hl Hp Hc;
    simpl; [done |].
  apply Forall_cons in Hl as [Hline Hl].
  apply IH; [done | |]; unfold split_message_step;
    destruct (Z.leb_spec (len (current ++ line ++ newline)) max_length);
    simpl in *; try done.
  - destruct current as [|c t]; simpl; [done |].
    apply Forall_app. split; [done |]. constructor; [|done].
    destruct Hc as [Hc|Hc]; [done |].
    pose proof (length_strip (c :: t)). unfold len in *. lia.
  - by right.
  - right. unfold len, newline in *. rewrite length_app. simpl. lia.
Qed.

(** X13. When every line of the message, with its line end, fits in
    [max_length], so does every part that [_split_message] returns. *)
Theorem split_message_bound (message : str) (max_length : Z) :
  Forall (λ line, (len line + 1 ≤ max_length)%Z) (split_on 10 message) →
  Forall (λ part, (len part ≤ max_length)%Z) (split_message message max_length).
Proof.
  intros Hl. unfold split_message.
  destruct (split_message_fold_bound max_length (split_on 10 message) ([], []) Hl)
    as [Hp Hc]; [done | by left |].
  destruct (fold_left _ _ _) as [parts [|c t]]; simpl in *; [done |].
  apply Forall_app. split; [done |]. constructor; [|done].
  destruct Hc as [Hc|Hc]; [done |].
  pose proof (length_strip (c :: t)). unfold len in *. lia.
Qed.

(** ** The texts sent for a message *)

Lemma decorate_part_contains (n i : nat) (part : str) :
  substring_of part (decorate_part n i part).
Proof.
  unfold decorate_part.
  generalize continuation_follows (continuation_header i n). intros after before.
  destruct (i =? 0)%nat; [|destruct (_ =? _)%Z].
  - exists [], after. reflexivity.
  - exists before, []. rewrite app_nil_r. reflexivity.
  - exists before, after. reflexivity.
Qed.

(** X14. A message of at most 3800 characters is sent as it is, in one
    text.  A longer one is sent in as many texts as [_split_message]
    returns parts, each text holding its part; the first text ends with
    the notice that more follows, also when it is the only one. *)
Theorem send_message_texts_spec (message : str) :
  ((len message ≤ 3800)%Z → send_message_texts message = [message])
  ∧ ((3800 < len message)%Z →
     length (send_message_texts message) = length (split_message message 3800)
     ∧ (∀ i part, split_message message 3800 !! i = Some part →
          ∃ text, send_message_texts message !! i = Some text
                  ∧ substring_of part text)
     ∧ (∃ part, split_message message 3800 !! 0%nat = Some part
                ∧ send_message_texts message !! 0%nat
                  = Some (part ++ continuation_follows))).
Proof.
  unfold send_message_texts. split; intros Hlen.
  - by rewrite (proj2 (Z.leb_le _ _) Hlen).
  - rewrite (proj2 (Z.leb_gt _ _) Hlen). split; [apply length_imap | split].
    + intros i part Hi. exists (decorate_part (length (split_message message 3800)) i part).
      split; [|apply decorate_part_contains].
      by rewrite list_lookup_imap, Hi.
    + pose proof (split_message_nonempty message 3800) as Hne.
      destruct (split_message message 3800) as [|part parts] eqn:Hp; [simpl in Hne; lia |].
      exists part. split; [done |]. by rewrite list_lookup_imap.
Qed.

(** ** Reddit content type *)

Definition content_types : list str :=
  [ py "text"; py "image"; py "video"; py "link" ].

Lemma content_types_have_glyphs :
  Forall (λ t, is_Some (emoji_map !! t)) content_types.
Proof. unfold content_types. repeat constructor; vm_compute; eauto. Qed.

Lemma get_content_type_cases (post : reddit_post) :
  get_content_type post ∈ content_types
  ∨ (get_content_type post = py "unknown" ∧ post_url post = None).
Proof.
  unfold get_content_type, content_types.
  generalize (py "text") (py "image") (py "video") (py "link") (py "unknown").
  intros t i v l u.
  destruct (match selftext post with Some _ => _ | None => _ end).
  { left. apply elem_of_cons. by left. }
  destruct (post_url post) as [url|]; [left | by right].
  repeat (destruct (_ : bool));
    repeat ((apply elem_of_cons; left; reflexivity) || (apply elem_of_cons; right)).
Qed.

(** X15. [_get_content_type] answers "text", "image", "video" or "link",
    or "unknown" when the URL of the post cannot be read; the formatter
    has a glyph of its own for each of the first four, so its default
    glyph can only stand for "unknown".  A post with a text that is not
    "[deleted]" is "text" whatever its URL. *)
Theorem get_content_type_glyph :
  (∀ post,
     is_Some (emoji_map !! get_content_type post)
     ∨ (get_content_type post = py "unknown" ∧ post_url post = None))
  ∧ (∀ post url, post_url post = Some url →
       get_content_type post ∈ [py "text"; py "image"; py "video"; py "link"])
  ∧ (∀ c text url,
       c :: text ≠ py "[deleted]" →
       get_content_type {| selftext := Some (c :: text); post_url := url |}
       = py "text").
Proof.
  split; [|split].
  - intros post. destruct (get_content_type_cases post) as [Hin|Hu]; [left | by right].
    pose proof content_types_have_glyphs as HF. rewrite Forall_forall in HF.
    by apply HF.
  - intros post url Hurl.
    destruct (get_content_type_cases post) as [Hin|[_ Hu]]; [done | congruence].
  - intros c text url Hd. unfold get_content_type. cbn [selftext].
    rewrite (bool_decide_eq_false_2 _ Hd).
    rewrite bool_decide_eq_false_2 by discriminate. reflexivity.
Qed.

(** ** Configuration check *)

Definition config_ok (env : gmap str str) : Prop :=
  unset (env !! py "TELEGRAM_BOT_TOKEN") = false
  ∧ unset (env !! py "TELEGRAM_CHAT_ID") = false
  ∧ (enabled env (py "ENABLE_YOUTUBE") = true →
     unset (env !! py "YOUTUBE_API_KEY") = false)
  ∧ (enabled env (py "ENABLE_REDDIT") = true →
     unset (env !! py "REDDIT_CLIENT_ID") = false
     ∧ unset (env !! py "REDDIT_CLIENT_SECRET") = false).

Lemma enabled_spec (env : gmap str str) (key : str) :
  enabled env key = true ↔
  env !! key = None ∨ ∃ value, env !! key = Some value ∧ lower value = py "true".
Proof.
  unfold enabled. rewrite bool_decide_eq_true.
  destruct (env !! key) as [value|]; simpl.
  - split; [intros H; right; by exists value |].
    intros [H|(v & [= <-] & H)]; [discriminate H | done].
  - split; [by left | intros _]. vm_compute. reflexivity.
Qed.

Lemma config_errors_nil (env : gmap str str) :
  config_errors env = [] ↔ config_ok env.
Proof.
  unfold config_errors, config_ok.
  generalize (py "TELEGRAM_BOT_TOKEN не установлен")
    (py "TELEGRAM_CHAT_ID не установлен")
    (py "YOUTUBE_API_KEY не установлен, но YouTube включен")
    (py "Reddit API credentials не установлены, но Reddit включен").
  intros e1 e2 e3 e4.
  destruct (unset (env !! py "TELEGRAM_BOT_TOKEN")),
    (unset (env !! py "TELEGRAM_CHAT_ID")),
    (enabled env (py "ENABLE_YOUTUBE")), (unset (env !! py "YOUTUBE_API_KEY")),
    (enabled env (py "ENABLE_REDDIT")), (unset (env !! py "REDDIT_CLIENT_ID")),
    (unset (env !! py "REDDIT_CLIENT_SECRET")); cbn [andb orb app].
  all: split; [intros H; try discriminate H | intros (H1 & H2 & H3 & H4)].
  all: try discriminate H1; try discriminate H2.
  all: try (specialize (H3 eq_refl); discriminate H3).
  all: try (specialize (H4 eq_refl); destruct H4 as [H4 H5];
            (discriminate H4 || discriminate H5)).
  all: try reflexivity.
  all: repeat split; intros; try discriminate; reflexivity.
Qed.

Lemma config_errors_length (env : gmap str str) :
  (length (config_errors env) ≤ 4)%nat.
Proof.
  unfold config_errors.
  generalize (py "TELEGRAM_BOT_TOKEN не установлен")
    (py "TELEGRAM_CHAT_ID не установлен")
    (py "YOUTUBE_API_KEY не установлен, но YouTube включен")
    (py "Reddit API credentials не установлены, но Reddit включен").
  intros e1 e2 e3 e4.
  repeat (destruct (_ : bool)); cbn [app length]; lia.
Qed.

(** The four lines of the message, in the order of the checks. *)
Definition config_error_lines : list str :=
  [ py "TELEGRAM_BOT_TOKEN не установлен";
    py "TELEGRAM_CHAT_ID не установлен";
    py "YOUTUBE_API_KEY не установлен, но YouTube включен";
    py "Reddit API credentials не установлены, но Reddit включен" ].

Lemma config_error_lines_distinct : NoDup config_error_lines.
Proof. apply (bool_decide_unpack _). vm_compute. exact I. Qed.

(** Each failed check contributes its line, in the order of the checks. *)
Lemma config_errors_shape (env : gmap str str) :
  config_errors env
  = (if unset (env !! py "TELEGRAM_BOT_TOKEN")
     then [py "TELEGRAM_BOT_TOKEN не установлен"] else [])
    ++ (if unset (env !! py "TELEGRAM_CHAT_ID")
        then [py "TELEGRAM_CHAT_ID не установлен"] else [])
    ++ (if enabled env (py "ENABLE_YOUTUBE") && unset (env !! py "YOUTUBE_API_KEY")
        then [py "YOUTUBE_API_KEY не установлен, но YouTube включен"] else [])
    ++ (if enabled env (py "ENABLE_REDDIT")
           && (unset (env !! py "REDDIT_CLIENT_ID")
               || unset (env !! py "REDDIT_CLIENT_SECRET"))
        then [py "Reddit API credentials не установлены, но Reddit включен"]
        else []).
Proof.
  unfold config_errors.
  generalize (py "TELEGRAM_BOT_TOKEN не установлен")
    (py "TELEGRAM_CHAT_ID не установлен")
    (py "YOUTUBE_API_KEY не установлен, но YouTube включен")
    (py "Reddit API credentials не установлены, но Reddit включен").
  intros e1 e2 e3 e4.
  destruct (unset (env !! py "TELEGRAM_BOT_TOKEN")),
    (unset (env !! py "TELEGRAM_CHAT_ID")),
    (enabled env (py "ENABLE_YOUTUBE") && unset (env !! py "YOUTUBE_API_KEY")),
    (enabled env (py "ENABLE_REDDIT")
     && (unset (env !! py "REDDIT_CLIENT_ID")
         || unset (env !! py "REDDIT_CLIENT_SECRET")));
    reflexivity.
Qed.

Lemma config_errors_lines (env : gmap str str) :
  (py "TELEGRAM_BOT_TOKEN не установлен" ∈ config_errors env
   ↔ unset (env !! py "TELEGRAM_BOT_TOKEN") = true)
  ∧ (py "TELEGRAM_CHAT_ID не установлен" ∈ config_errors env
     ↔ unset (env !! py "TELEGRAM_CHAT_ID") = true)
  ∧ (py "YOUTUBE_API_KEY не установлен, но YouTube включен" ∈ config_errors env
     ↔ enabled env (py "ENABLE_YOUTUBE") = true
       ∧ unset (env !! py "YOUTUBE_API_KEY") = true)
  ∧ (py "Reddit API credentials не установлены, но Reddit включен"
       ∈ config_errors env
     ↔ enabled env (py "ENABLE_REDDIT") = true
       ∧ (unset (env !! py "REDDIT_CLIENT_ID") = true
          ∨ unset (env !! py "REDDIT_CLIENT_SECRET") = true))
  ∧ config_errors env `sublist_of` config_error_lines.
Proof.
  rewrite config_errors_shape.
  pose proof config_error_lines_distinct as Hd. unfold config_error_lines in *.
  revert Hd.
  generalize (py "TELEGRAM_BOT_TOKEN не установлен")
    (py "TELEGRAM_CHAT_ID не установлен")
    (py "YOUTUBE_API_KEY не установлен, но YouTube включен")
    (py "Reddit API credentials не установлены, но Reddit включен").
  intros e1 e2 e3 e4 Hd.
  inversion_clear Hd as [|? ? H1 Hd']. inversion_clear Hd' as [|? ? H2 Hd].
  inversion_clear Hd as [|? ? H3 _].
  repeat match goal with
         | H : _ ∉ _ :: _ |- _ => apply not_elem_of_cons in H as [? H]
         end.
  rewrite <- (orb_true_iff (unset (env !! py "REDDIT_CLIENT_ID"))).
  rewrite <- !andb_true_iff.
  destruct (unset (env !! py "TELEGRAM_BOT_TOKEN")),
    (unset (env !! py "TELEGRAM_CHAT_ID")),
    (enabled env (py "ENABLE_YOUTUBE") && unset (env !! py "YOUTUBE_API_KEY")),
    (enabled env (py "ENABLE_REDDIT")
     && (unset (env !! py "REDDIT_CLIENT_ID")
         || unset (env !! py "REDDIT_CLIENT_SECRET"))).
  all: cbn [app].
  all: split; [| split; [| split; [| split]]].
  all: try (repeat constructor; fail).
  all: split; intros Hin; try discriminate Hin; try reflexivity.
  all: repeat (apply elem_of_cons in Hin as [Hin|Hin]);
    try apply not_elem_of_nil in Hin;
    try done; try congruence.
  all: rewrite !elem_of_cons; intuition.
Qed.

(** X16. [validate_config] returns [True] exactly when the bot token and
    the chat id are set and not empty, the YouTube key is when YouTube is
    enabled, and both Reddit credentials are when Reddit is enabled; it
    never returns [False]: in every other case it raises [ValueError]
    with a message that lists all the failed checks, one per line, after
    a heading.  Each failed check contributes its own line, a passed
    check none, and the lines are in the order of the checks.  A source
    is enabled unless its variable is set to something that is not "true"
    in some letter case; a variable is unset when it is missing or
    empty. *)
Theorem validate_config_spec (env : gmap str str) :
  (validate_config env = Returned true ↔ config_ok env)
  ∧ (∀ b, validate_config env = Returned b → b = true)
  ∧ (∀ message, validate_config env = ValueError message →
       ¬ config_ok env
       ∧ message = py "Ошибки конфигурации:" ++ [10] ++ join [10] (config_errors env)
       ∧ (1 ≤ length (config_errors env) ≤ 4)%nat)
  ∧ (∀ key, enabled env key = true ↔
       env !! key = None ∨ ∃ value, env !! key = Some value ∧ lower value = py "true")
  ∧ (py "TELEGRAM_BOT_TOKEN не установлен" ∈ config_errors env
     ↔ unset (env !! py "TELEGRAM_BOT_TOKEN") = true)
  ∧ (py "TELEGRAM_CHAT_ID не установлен" ∈ config_errors env
     ↔ unset (env !! py "TELEGRAM_CHAT_ID") = true)
  ∧ (py "YOUTUBE_API_KEY не установлен, но YouTube включен" ∈ config_errors env
     ↔ enabled env (py "ENABLE_YOUTUBE") = true
       ∧ unset (env !! py "YOUTUBE_API_KEY") = true)
  ∧ (py "Reddit API credentials не установлены, но Reddit включен"
       ∈ config_errors env
     ↔ enabled env (py "ENABLE_REDDIT") = true
       ∧ (unset (env !! py "REDDIT_CLIENT_ID") = true
          ∨ unset (env !! py "REDDIT_CLIENT_SECRET") = true))
  ∧ config_errors env `sublist_of` config_error_lines
  ∧ (∀ value, unset value = true ↔ value = None ∨ value = Some [])
  ∧ (∀ line : str, join [10] [line] = line)
  ∧ (∀ (line next : str) (lines : list str),
       join [10] (line :: next :: lines)
       = line ++ [10] ++ join [10] (next :: lines))
  ∧ validate_config ∅
    = ValueError
        (py "Ошибки конфигурации:" ++ [10]
         ++ py "TELEGRAM_BOT_TOKEN не установлен" ++ [10]
         ++ py "TELEGRAM_CHAT_ID не установлен" ++ [10]
         ++ py "YOUTUBE_API_KEY не установлен, но YouTube включен" ++ [10]
         ++ py "Reddit API credentials не установлены, но Reddit включен")
  ∧ validate_config
      (<[py "TELEGRAM_BOT_TOKEN" := py "token"]>
         (<[py "ENABLE_YOUTUBE" := py "FALSE"]>
            (<[py "ENABLE_REDDIT" := py "True"]>
               (<[py "REDDIT_CLIENT_ID" := py "id"]> ∅))))
    = ValueError
        (py "Ошибки конфигурации:" ++ [10]
         ++ py "TELEGRAM_CHAT_ID не установлен" ++ [10]
         ++ py "Reddit API credentials не установлены, но Reddit включен").
Proof.
  pose proof (config_errors_nil env) as Hnil.
  pose proof (config_errors_length env) as Hlen.
  pose proof (config_errors_lines env) as (Hl1 & Hl2 & Hl3 & Hl4 & Hsub).
  split; [| split; [| split; [| split]]].
  5: { split; [exact Hl1 |]. split; [exact Hl2 |]. split; [exact Hl3 |].
       split; [exact Hl4 |]. split; [exact Hsub |].
       split.
       { intros [[|c t]|]; simpl; split; try done.
         - by right. - intros [H|H]; discriminate H. - by left. }
       split; [done |]. split; [done |].
       split; vm_compute; reflexivity. }
  all: unfold validate_config.
  all: generalize (py "Ошибки конфигурации:"); intros heading.
  all: destruct (config_errors env) as [|e es] eqn:He.
  - split; [intros _; by apply Hnil | reflexivity].
  - split; [intros H; discriminate H |]. intros H. apply Hnil in H. discriminate H.
  - by intros b [= <-].
  - intros b H. discriminate H.
  - intros message H. discriminate H.
  - intros message [= <-]. split; [|split; [reflexivity | simpl in *; lia]].
    intros H. apply Hnil in H. discriminate H.
  - intros key. apply enabled_spec.
  - intros key. apply enabled_spec.
Qed.

(** ** Video duration *)

(** The ASCII characters of a list of decimal digits. *)
Definition decimal (digits : list N) : str := (λ d, d + 48) <$> digits.

Definition digits_ok (digits : list N) : Prop := Forall (λ d, d < 10) digits.

Lemma digit_value_decimal (d : N) : d < 10 → digit_value (d + 48) = Some d.
Proof.
  intros Hd. unfold digit_value, in_range.
  destruct (N.ltb_spec (d + 48) 128); [|lia].
  destruct (N.leb_spec 48 (d + 48)); [|lia].
  destruct (N.leb_spec (d + 48) 57); [|lia].
  simpl. f_equal. lia.
Qed.

Lemma search_number_digits (marker : N) (run digits : list N) (rest : str) :
  digits_ok digits →
  search_number marker run (decimal digits ++ rest)
  = search_number marker (run ++ digits) rest.
Proof.
  intros Hd. revert run. induction Hd as [|d ds Hd _ IH]; intros run; simpl.
  - by rewrite app_nil_r.
  - rewrite (digit_value_decimal d Hd), IH. by rewrite <- app_assoc.
Qed.

Lemma app_one (c : N) (rest : str) : [c] ++ rest = c :: rest.
Proof. reflexivity. Qed.

Ltac read_digits :=
  match goal with
  | |- context [search_number ?m ?run (decimal ?ds ++ ?rest)] =>
    rewrite (search_number_digits m run ds rest) by assumption
  end.

Lemma search_number_other (marker c : N) (run : list N) (rest : str) :
  digit_value c = None → c ≠ marker →
  search_number marker run (c :: rest) = search_number marker [] rest.
Proof.
  intros Hc Hm. simpl. rewrite Hc.
  destruct run; [done |]. by rewrite (proj2 (N.eqb_neq _ _) Hm).
Qed.

Lemma search_number_hit (marker d : N) (run : list N) (rest : str) :
  digit_value marker = None →
  search_number marker (d :: run) (marker :: rest) = Some (d :: run).
Proof. intros Hm. simpl. by rewrite Hm, N.eqb_refl. Qed.

Lemma remove_pair_cons (a b c c' : N) (t : str) :
  remove_pair a b (c :: c' :: t)
  = if (c =? a) && (c' =? b) then remove_pair a b t
    else c :: remove_pair a b (c' :: t).
Proof. reflexivity. Qed.

Lemma remove_pair_absent (a b : N) (s : str) : a ∉ s → remove_pair a b s = s.
Proof.
  induction s as [|c rest IH]; [done |]. intros Hs.
  apply not_elem_of_cons in Hs as [Hc Hrest].
  destruct rest as [|c' t]; [done |].
  rewrite remove_pair_cons, (proj2 (N.eqb_neq c a)) by done.
  cbn [andb]. by rewrite IH.
Qed.

Lemma int_of_digits_nonneg (digits : list N) : (0 ≤ int_of_digits digits)%Z.
Proof.
  unfold int_of_digits.
  assert (H : ∀ acc, (0 ≤ acc)%Z →
    (0 ≤ fold_left (λ acc d, 10 * acc + Z.of_N d) digits acc)%Z).
  { induction digits as [|d ds IH]; intros acc Hacc; simpl; [done |].
    apply IH. lia. }
  by apply H.
Qed.

Lemma not_in_decimal (c : N) (digits : list N) :
  digits_ok digits → 57 < c → c ∉ decimal digits.
Proof.
  intros Hd Hc Hin. unfold decimal in Hin.
  apply list_elem_of_fmap in Hin as (d & -> & Hin).
  unfold digits_ok in Hd. rewrite Forall_forall in Hd. specialize (Hd d Hin). lia.
Qed.

(** The value that the three components stand for. *)
Definition hms_seconds (hs ms ss : list N) : Z :=
  (int_of_digits hs * 3600 + int_of_digits ms * 60 + int_of_digits ss)%Z.

(** The part of a duration after the date part. *)
Definition hms_text (hs ms ss : list N) : str :=
  decimal hs ++ py "H" ++ decimal ms ++ py "M" ++ decimal ss ++ py "S".

Lemma search_hms (hs ms ss : list N) (lead : str) :
  digits_ok hs → digits_ok ms → digits_ok ss →
  hs ≠ [] → ms ≠ [] → ss ≠ [] →
  Forall (λ c, digit_value c = None ∧ c ≠ 72 ∧ c ≠ 77 ∧ c ≠ 83) lead →
  ∀ run,
  (run = [] ∨ lead ≠ []) →
  search_number 72 run (lead ++ hms_text hs ms ss) = Some hs
  ∧ search_number 77 run (lead ++ hms_text hs ms ss) = Some ms
  ∧ search_number 83 run (lead ++ hms_text hs ms ss) = Some ss.
Proof.
  intros Hh Hm Hs Hhn Hmn Hsn Hlead.
  induction Hlead as [|c lead (Hc & H1 & H2 & H3) _ IH]; intros run Hrun.
  - destruct Hrun as [->|?]; [|done]. simpl app. unfold hms_text.
    change (py "H") with [72]. change (py "M") with [77]. change (py "S") with [83].
    destruct hs as [|h hs]; [done |]. destruct ms as [|m ms]; [done |].
    destruct ss as [|s ss]; [done |].
    repeat split.
    + read_digits. rewrite ?app_nil_l, ?app_one.
      by apply search_number_hit.
    + read_digits. rewrite ?app_nil_l, ?app_one.
      rewrite search_number_other; [|done..].
      read_digits. rewrite ?app_nil_l, ?app_one.
      by apply search_number_hit.
    + read_digits. rewrite ?app_nil_l, ?app_one.
      rewrite search_number_other; [|done..].
      read_digits. rewrite ?app_nil_l, ?app_one.
      rewrite search_number_other; [|done..].
      read_digits. rewrite ?app_nil_l, ?app_one.
      by apply search_number_hit.
  - simpl app. rewrite !search_number_other; [|done..]. apply IH. by left.
Qed.

Lemma int_of_str_nonneg (digits : list N) (value : Z) :
  int_of_str digits = Some value → (0 ≤ value)%Z.
Proof.
  unfold int_of_str. destruct (_ <=? _)%Z; [| done].
  intros [= <-]. apply int_of_digits_nonneg.
Qed.

(** With the three components found, the total: their value when [int]
    reads all three, and 0 when one of them has more digits than [int]
    reads. *)
Ltac total_of_components H1 H2 H3 :=
  unfold parse_duration; rewrite H1, H2, H3;
  unfold int_of_str, len, int_max_str_digits;
  let Hlen := fresh "Hlen" in
  case_bool_decide as Hlen;
  [ destruct Hlen as (? & ? & ?);
    rewrite !(proj2 (Z.leb_le _ 4300)) by done;
    simpl; unfold hms_seconds; lia
  | repeat match goal with
           | |- context [(?n <=? 4300)%Z] => destruct (Z.leb_spec n 4300)
           end;
    simpl; try reflexivity; destruct Hlen; lia ].

(** X17. For a duration written as "PT", hours, "H", minutes, "M",
    seconds, "S", each number a non-empty string of ASCII digits,
    [_parse_duration] returns hours * 3600 + minutes * 60 + seconds when
    none of the three numbers has more than 4300 digits, and 0 when one of
    them has: [int] refuses such a string and the function answers the
    exception with 0. *)
Theorem parse_duration_hms (hs ms ss : list N) :
  digits_ok hs → digits_ok ms → digits_ok ss →
  hs ≠ [] → ms ≠ [] → ss ≠ [] →
  parse_duration (Some (py "PT" ++ hms_text hs ms ss))
  = if bool_decide (Z.of_nat (length hs) ≤ 4300
                    ∧ Z.of_nat (length ms) ≤ 4300
                    ∧ Z.of_nat (length ss) ≤ 4300)%Z
    then hms_seconds hs ms ss else 0%Z.
Proof.
  intros Hh Hm Hs Hhn Hmn Hsn.
  change (py "PT") with [80; 84].
  assert (Hrm : remove_pair 80 84 ([80; 84] ++ hms_text hs ms ss) = hms_text hs ms ss).
  { destruct hs as [|h hs]; [done |].
    change (remove_pair 80 84 ([80; 84] ++ hms_text (h :: hs) ms ss))
      with (remove_pair 80 84 (hms_text (h :: hs) ms ss)).
    apply remove_pair_absent. unfold hms_text.
    change (py "H") with [72]. change (py "M") with [77]. change (py "S") with [83].
    rewrite !not_elem_of_app, !list_elem_of_singleton.
    repeat split; try (by apply not_in_decimal); lia. }
  destruct (search_hms hs ms ss [] Hh Hm Hs Hhn Hmn Hsn (Forall_nil_2 _) [])
    as (H1 & H2 & H3); [by left |].
  rewrite app_nil_l in H1, H2, H3. rewrite <- Hrm in H1, H2, H3.
  total_of_components H1 H2 H3.
Qed.

(** X18. [_parse_duration] never returns a negative number, and returns
    0 when it is not given a string.  Of a duration with a date part, "P",
    days, "DT", hours, "H", minutes, "M", seconds, "S", it returns the
    hours, minutes and seconds alone when none of the three has more than
    4300 digits: the days are left out.  Whatever the string, a component
    of more than 4300 digits makes the result 0. *)
Theorem parse_duration_days_left_out :
  (∀ duration_str, (0 ≤ parse_duration duration_str)%Z)
  ∧ parse_duration None = 0%Z
  ∧ (∀ ds hs ms ss,
       digits_ok ds → digits_ok hs → digits_ok ms → digits_ok ss →
       hs ≠ [] → ms ≠ [] → ss ≠ [] →
       parse_duration
         (Some (py "P" ++ decimal ds ++ py "DT" ++ hms_text hs ms ss))
       = if bool_decide (Z.of_nat (length hs) ≤ 4300
                         ∧ Z.of_nat (length ms) ≤ 4300
                         ∧ Z.of_nat (length ss) ≤ 4300)%Z
         then hms_seconds hs ms ss else 0%Z)
  ∧ (∀ (s : str) (marker : N) (digits : list N),
       marker = 72 ∨ marker = 77 ∨ marker = 83 →
       search_number marker [] (remove_pair 80 84 s) = Some digits →
       (4300 < Z.of_nat (length digits))%Z →
       parse_duration (Some s) = 0%Z).
Proof.
  split; [|split; [done |split]].
  - intros [s|]; [|done]. unfold parse_duration.
    destruct (search_number 72 _ _) as [h|], (search_number 77 _ _) as [m|],
      (search_number 83 _ _) as [x|].
    all: repeat match goal with
         | |- context [int_of_str ?d] =>
           let H := fresh "Hv" in
           pose proof (int_of_str_nonneg d) as H;
           destruct (int_of_str d); [specialize (H _ eq_refl) | clear H]
         end; simpl; lia.
  - intros ds hs ms ss Hd Hh Hm Hs Hhn Hmn Hsn.
    change (py "P") with [80]. change (py "DT") with [68; 84].
    set (tail := decimal ds ++ [68; 84] ++ hms_text hs ms ss).
    assert (Htail : 80 ∉ tail).
    { unfold tail, hms_text.
      change (py "H") with [72]. change (py "M") with [77]. change (py "S") with [83].
      rewrite !not_elem_of_app, !not_elem_of_cons.
      repeat split; try (by apply not_in_decimal); try lia; apply not_elem_of_nil. }
    assert (Hrm : remove_pair 80 84 ([80] ++ tail) = [80] ++ tail).
    { cbn [app]. destruct tail as [|c t] eqn:Ht; [done |].
      assert (Hc : c ≠ 84).
      { intros ->. unfold tail in Ht. destruct ds as [|d ds']; [discriminate Ht |].
        injection Ht as Hd' _. apply Forall_inv in Hd. lia. }
      rewrite remove_pair_cons, (proj2 (N.eqb_neq c 84)) by done.
      rewrite andb_false_r. by rewrite remove_pair_absent. }
    assert (Hsearch : ∀ marker,
      search_number marker [] ([80] ++ decimal ds ++ [68; 84] ++ hms_text hs ms ss)
      = search_number marker [] ([84] ++ hms_text hs ms ss)
      ∨ marker = 68 ∨ marker = 80).
    { intros marker.
      destruct (N.eq_dec marker 68) as [->|H68]; [by right; left |].
      destruct (N.eq_dec marker 80) as [->|H80]; [by right; right |].
      left. cbn [app]. rewrite search_number_other; [|done..].
      read_digits. cbn [app].
      rewrite search_number_other; [reflexivity | done..]. }
    destruct (search_hms hs ms ss [84] Hh Hm Hs Hhn Hmn Hsn) with (run := @nil N)
      as (H1 & H2 & H3); [by repeat constructor | by left |].
    destruct (Hsearch 72) as [H72|[?|?]]; [|done..].
    destruct (Hsearch 77) as [H77|[?|?]]; [|done..].
    destruct (Hsearch 83) as [H83|[?|?]]; [|done..].
    rewrite <- H72 in H1. rewrite <- H77 in H2. rewrite <- H83 in H3.
    fold tail in H1, H2, H3. rewrite <- Hrm in H1, H2, H3.
    total_of_components H1 H2 H3.
  - intros s marker digits Hmarker Hfound Hlen. unfold parse_duration.
    destruct Hmarker as [-> | [-> | ->]]; rewrite Hfound.
    all: unfold int_of_str, len, int_max_str_digits.
    all: rewrite (proj2 (Z.leb_gt (Z.of_nat (length digits)) 4300) Hlen).
    all: repeat match goal with
         | |- context [search_number ?m [] ?t] =>
           destruct (search_number m [] t)
         end.
    all: repeat match goal with
         | |- context [(?n <=? 4300)%Z] => destruct (n <=? 4300)%Z
         end; reflexivity.
Qed.

(** ** Filter and rank, continued *)

Lemma calculate_relevance_score_range (title description : str) keywords :
  (0 ≤ calculate_relevance_score title description keywords ≤ 100)%Z.
Proof.
  destruct title as [|c title]; [simpl; lia |].
  rewrite calculate_relevance_score_formula.
  pose proof (keyword_bonus_range keywords). lia.
Qed.

Lemma sort_desc_fixed {A} (key : A → Z) (l : list A) :
  StronglySorted (key_ge key) l → sort_desc key l = l.
Proof.
  induction 1 as [|x t Ht IH Hx]; simpl; [done |].
  rewrite IH. destruct t as [|y t']; [done |].
  apply Forall_inv in Hx. unfold key_ge in Hx. simpl.
  by rewrite (proj2 (Z.ltb_ge _ _) Hx).
Qed.

(** An item that [filter_news_by_relevance] would keep as it is. *)
Definition settled (min_score : Z) (n : NewsItem) : Prop :=
  language_ok n = true ∧ (min_score ≤ score_of n)%Z
  ∧ set_relevance_score n (score_of n) = n.

Lemma kept_settled (min_score : Z) (l : list NewsItem) :
  Forall (settled min_score) l → kept l min_score = l.
Proof.
  unfold kept. induction 1 as [|n t (Hl & Hs & Hn) _ IH]; [done |].
  rewrite filter_cons_True by done. rewrite fmap_cons. by rewrite IH, Hn.
Qed.

Lemma kept_are_settled (min_score : Z) (news_list : list NewsItem) :
  Forall (settled min_score) (kept news_list min_score).
Proof.
  apply Forall_forall. intros n Hn.
  apply elem_of_kept in Hn as (news & _ & Hl & Hs & ->). by repeat split.
Qed.

(** X19. Filtering and ranking what has been filtered and ranked with the
    same minimum score changes nothing. *)
Theorem filter_news_by_relevance_idempotent (news_list : list NewsItem) (min_score : Z) :
  filter_news_by_relevance (filter_news_by_relevance news_list min_score) min_score
  = filter_news_by_relevance news_list min_score.
Proof.
  rewrite (filter_news_by_relevance_kept news_list).
  rewrite filter_news_by_relevance_kept, kept_settled.
  - apply sort_desc_fixed, sort_desc_sorted.
  - rewrite sort_desc_perm. apply kept_are_settled.
Qed.

(** X20. With a minimum score above 100 [filter_news_by_relevance] keeps
    nothing; with one of 0 or less it keeps every item whose title
    passes the language filter, and as many items as pass. *)
Theorem filter_news_by_relevance_thresholds (news_list : list NewsItem) (min_score : Z) :
  ((100 < min_score)%Z → filter_news_by_relevance news_list min_score = [])
  ∧ ((min_score ≤ 0)%Z →
     (∀ news, news ∈ news_list →
        is_english_or_russian (Some (default [] (title news))) = true →
        set_relevance_score news (score_of news)
          ∈ filter_news_by_relevance news_list min_score)
     ∧ length (filter_news_by_relevance news_list min_score)
       = length (filter (λ news, language_ok news = true) news_list)).
Proof.
  rewrite filter_news_by_relevance_kept. split; intros Hm.
  - assert (Hk : kept news_list min_score = []); [|by rewrite Hk].
    unfold kept. induction news_list as [|news l IH]; [done |].
    rewrite filter_cons_False; [done |]. intros [_ Hs].
    pose proof (calculate_relevance_score_range (default [] (title news))
      (default [] (description news)) (Some (default [] (keywords news)))).
    unfold score_of in Hs. lia.
  - split.
    + intros news Hin Hl. rewrite sort_desc_perm. apply elem_of_kept.
      exists news. repeat split; try done.
      pose proof (calculate_relevance_score_range (default [] (title news))
        (default [] (description news)) (Some (default [] (keywords news)))).
      unfold score_of. lia.
    + rewrite (Permutation_length (sort_desc_perm _ _)). unfold kept.
      rewrite length_fmap. f_equal.
      apply list_filter_iff. intros news. split; [by intros [? _] |].
      intros Hl. split; [done |].
      pose proof (calculate_relevance_score_range (default [] (title news))
        (default [] (description news)) (Some (default [] (keywords news)))).
      unfold score_of. lia.
Qed.

End Filters.

(** * The functions on concrete inputs *)

(** The tables are those of [cyrillic_lower], [cyrillic_alnum] and
    [nbsp_space]. *)

Ltac by_computation := vm_compute; reflexivity.
Ltac decide_by_computation := apply (bool_decide_unpack _); vm_compute; exact I.

(** *** Scenarios of the specification *)

Example score_chatgpt_feature :
  calculate_relevance_score cyrillic_lower
    (py "ChatGPT gets new feature") [] (Some [py "ChatGPT"]) = 25%Z.
Proof. by_computation. Qed.

Example research_paper_vetoed :
  contains_ai_keywords cyrillic_lower
    (Some (py "OpenAI research paper on gradient descent")) = false.
Proof. by_computation. Qed.

Example three_latin_letters_accepted :
  is_english_or_russian cyrillic_lower cyrillic_alnum nbsp_space (Some (py "abc")) = true
  ∧ is_english_or_russian cyrillic_lower cyrillic_alnum nbsp_space (Some (py "ab")) = false.
Proof. split; by_computation. Qed.

Example same_title_in_other_case_deduplicated :
  remove_duplicates cyrillic_lower nbsp_space
    [ sample_news "OpenAI launches GPT-5" "https://a" Absent;
      sample_news "openai launches gpt-5" "https://b" Absent ]
  = [ sample_news "OpenAI launches GPT-5" "https://a" Absent ].
Proof. by_computation. Qed.

(** Appending the keyword to the title, with a description after it, is
    not appending to the scored text: the match of "artificial
    intelligence" across the joining space is lost. *)
Example keyword_appended_to_title :
  calculate_relevance_score cyrillic_lower
    (py "sora artificial") (py "intelligence") None = 30%Z
  ∧ calculate_relevance_score cyrillic_lower
      (py "sora artificial" ++ py "sora") (py "intelligence") None = 20%Z.
Proof. split; by_computation. Qed.

(** *** Digest formatter *)

(** C1, where the claim fails: one item and [max_items = 0] give the
    header, which is not the no-news message. *)
Lemma format_truncated_to_nothing_is_header :
  format_news_for_telegram sample_date [news_with_utc_date] 0%Z
  = py "📰 <b>AI News Digest — 03 November 2026</b>" ++ [10; 10]
  ∧ bool_decide
      (format_news_for_telegram sample_date [news_with_utc_date] 0%Z = NO_NEWS_MESSAGE)
    = false.
Proof. split; by_computation. Qed.

Lemma format_news_for_telegram_no_news_witness :
  format_news_for_telegram sample_date [news_with_utc_date] (-1)%Z
  = format_header sample_date.
Proof.
  apply (proj1 (proj2 format_news_for_telegram_no_news)). reflexivity.
Defined.

(** *** Orchestrator *)

(** C2, on batches of two items that both pass the filters, the second
    dated in UTC.  When the first has no [published_date] key, the sort by
    date compares the naive [datetime.min] with the aware date and raises;
    it raises as well when the first holds [None] under the key, or a
    naive date. *)
Lemma process_news_missing_date_raises :
  process_news cyrillic_lower cyrillic_alnum nbsp_space
    [news_without_date; news_with_utc_date]
  = Raise TypeError
  ∧ process_news cyrillic_lower cyrillic_alnum nbsp_space
      [news_with_null_date; news_with_utc_date]
    = Raise TypeError
  ∧ process_news cyrillic_lower cyrillic_alnum nbsp_space
      [news_with_naive_date; news_with_utc_date]
    = Raise TypeError.
Proof. repeat split; by_computation. Qed.

(** *** Keyword matcher *)

(** C3, where the claim fails: "OpenAI" is twice in [AI_KEYWORDS] and is
    reported twice. *)
Lemma extract_keywords_reports_openai_twice :
  extract_keywords_from_text cyrillic_lower (Some (py "OpenAI"))
  = [py "OpenAI"; py "AI"; py "OpenAI"].
Proof. by_computation. Qed.

Lemma extract_keywords_from_text_spec_witness :
  py "OpenAI" ∈ extract_keywords_from_text cyrillic_lower
                  (Some (py "Why " ++ py "OPENAI" ++ py " bought a chip maker")).
Proof.
  apply (proj1 (proj2 (proj2 (proj2 (proj2 (proj2
           (extract_keywords_from_text_spec cyrillic_lower))))))).
  - decide_by_computation.
  - split; [| split].
    + decide_by_computation.
    + decide_by_computation.
    + vm_compute. reflexivity.
Defined.

Lemma contains_ai_keywords_spec_witness :
  contains_ai_keywords cyrillic_lower
    (Some (py "OpenAI " ++ py "Research PAPER" ++ py " on gradient descent"))
  = false.
Proof.
  apply (proj1 (proj2 (proj2 (proj2 (proj2 (proj2 (proj2
           (contains_ai_keywords_spec cyrillic_lower))))))))
    with (k := py "research paper").
  - decide_by_computation.
  - split; [| split].
    + decide_by_computation.
    + decide_by_computation.
    + vm_compute. reflexivity.
Defined.

(** *** Deduplicator *)

Lemma remove_duplicates_spec_witness :
  norm_title cyrillic_lower nbsp_space
    (sample_news "  OPENAI Launches gpt-5 " "https://b" Absent)
  = norm_title cyrillic_lower nbsp_space
      (sample_news "OpenAI launches GPT-5" "https://a" Absent)
  ∧ remove_duplicates cyrillic_lower nbsp_space
      [ sample_news "OpenAI launches GPT-5" "https://a" Absent;
        sample_news "  OPENAI Launches gpt-5 " "https://b" Absent ]
    = [ sample_news "OpenAI launches GPT-5" "https://a" Absent ].
Proof.
  apply (proj1 (proj2 (proj2 (proj2 (proj2 (proj2 (proj2 (proj2 (proj2 (proj2
           (remove_duplicates_spec cyrillic_lower nbsp_space)))))))))))
    with (l := py "  ") (t' := py "OPENAI Launches gpt-5") (r := py " ").
  - split; [| split].
    + decide_by_computation.
    + decide_by_computation.
    + vm_compute. reflexivity.
  - decide_by_computation.
  - decide_by_computation.
  - vm_compute. reflexivity.
Defined.

(** C4, where the claim fails: the second and third item have the same
    title and different URLs; the second is dropped for the URL it shares
    with the first, so its title is not recorded and the third is kept. *)
Lemma remove_duplicates_later_twin_survives :
  remove_duplicates cyrillic_lower nbsp_space
    [ sample_news "Gemini in the browser" "https://a" Absent;
      sample_news "OpenAI launches GPT-5" "https://a" Absent;
      sample_news "OpenAI launches GPT-5" "https://b" Absent ]
  = [ sample_news "Gemini in the browser" "https://a" Absent;
      sample_news "OpenAI launches GPT-5" "https://b" Absent ].
Proof. by_computation. Qed.

(** *** Recency filter *)

Lemma is_recent_news_spec_witness :
  cutoff_representable 63929304000000000 24
  ∧ is_recent_news 63929304000000000%Z
      (Some (naive_datetime 63929221200000000%Z)) 24%Z = Ok true
  ∧ is_recent_news 63929304000000000%Z
      (Some (utc_datetime 63929214000000000%Z)) 24%Z = Ok false.
Proof.
  assert (cutoff_representable 63929304000000000 24) as H.
  { unfold cutoff_representable. vm_compute. intuition discriminate. }
  split; [exact H |]. split.
  - rewrite (proj1 (proj2
               (is_recent_news_spec 63929304000000000%Z 24%Z)) H).
    reflexivity.
  - rewrite (proj1 (proj2
               (is_recent_news_spec 63929304000000000%Z 24%Z)) H).
    reflexivity.
Defined.

(** C5, where the claim fails: with a window of 48 hours into the future
    a timestamp one hour from now is not recent; with a window of a
    hundred million hours the lower end is before the year 1 and the call
    raises. *)
Lemma is_recent_news_future_and_overflow :
  is_recent_news 63929304000000000%Z
    (Some (utc_datetime 63929307600000000%Z)) (-48)%Z = Ok false
  ∧ is_recent_news 63929304000000000%Z
      (Some (utc_datetime 63929304000000000%Z)) 100000000%Z
    = Raise OverflowError.
Proof. split; reflexivity. Qed.

(** *** Filter and rank *)

Lemma filter_news_by_relevance_spec_witness :
  Forall
    (λ n, relevance_score n = Some (score_of cyrillic_lower n)
          ∧ (0 ≤ score_of cyrillic_lower n)%Z
          ∧ is_english_or_russian cyrillic_lower cyrillic_alnum nbsp_space
              (Some (default [] (title n))) = true)
    (filter_news_by_relevance cyrillic_lower cyrillic_alnum nbsp_space
       [news_without_date; news_with_utc_date] 0)
  ∧ StronglySorted
      (λ a b, (score_of cyrillic_lower b ≤ score_of cyrillic_lower a)%Z)
      (filter_news_by_relevance cyrillic_lower cyrillic_alnum nbsp_space
         [news_without_date; news_with_utc_date] 0).
Proof.
  pose proof (filter_news_by_relevance_spec
                cyrillic_lower cyrillic_alnum nbsp_space
                [news_without_date; news_with_utc_date] 0) as H.
  cbv zeta in H.
  destruct H as (_ & _ & _ & _ & _ & Hscored & Hsorted & _).
  exact (conj Hscored Hsorted).
Defined.

(** *** Relevance scorer *)

Lemma calculate_relevance_score_monotone_witness :
  (Z.min
     (calculate_relevance_score cyrillic_lower
        (py "ChatGPT gets new feature") (py "for ") None + 20) 100
   ≤ calculate_relevance_score cyrillic_lower
       (py "ChatGPT gets new feature") (py "for " ++ py "sora") None)%Z.
Proof.
  apply (proj2 (calculate_relevance_score_monotone cyrillic_lower)
           67 (py "hatGPT gets new feature") (py "for ") None (py "sora")).
  - decide_by_computation.
  - rewrite <- contains_spec. vm_compute. discriminate.
Defined.

(** *** Language filter *)

Lemma apostrophe_title_dropped_witness :
  is_english_or_russian cyrillic_lower cyrillic_alnum nbsp_space
    (Some (py "OpenAI's new model")) = false
  ∧ filter_news_by_relevance cyrillic_lower cyrillic_alnum nbsp_space
      [news_with_utc_date; news_with_apostrophe] 0%Z
    = filter_news_by_relevance cyrillic_lower cyrillic_alnum nbsp_space
        [news_with_utc_date] 0%Z.
Proof.
  split.
  - apply (proj1 (proj2
      (apostrophe_title_dropped cyrillic_lower cyrillic_alnum nbsp_space))).
    decide_by_computation.
  - apply (proj2 (proj2 (proj2
      (apostrophe_title_dropped cyrillic_lower cyrillic_alnum nbsp_space)))
      [news_with_utc_date] news_with_apostrophe [] 0%Z).
    decide_by_computation.
Defined.

(** * Further properties on concrete inputs *)

Example clean_text_sample :
  clean_text nbsp_space (Some (py "  AI   news  today ")) = py "AI news today".
Proof. by_computation. Qed.

Example parse_duration_sample :
  parse_duration ascii_digits_only (Some (py "PT1H2M3S")) = 3723%Z
  ∧ parse_duration ascii_digits_only (Some (py "PT15M")) = 900%Z
  ∧ parse_duration ascii_digits_only (Some (py "P1DT1H2M3S")) = 3723%Z.
Proof. repeat split; by_computation. Qed.

(** A line longer than the limit is a part longer than the limit. *)
Example split_message_long_line :
  split_message nbsp_space (py "aaa bbb") 5 = [py "aaa bbb"].
Proof. by_computation. Qed.

Lemma remove_duplicates_idempotent_witness :
  remove_duplicates cyrillic_lower nbsp_space [news_with_utc_date; news_dated_later]
  = [news_with_utc_date; news_dated_later].
Proof.
  apply (proj2 (remove_duplicates_idempotent cyrillic_lower nbsp_space));
    decide_by_computation.
Defined.

Lemma contains_ai_keywords_extract_witness :
  extract_keywords_from_text cyrillic_lower (Some (py "OpenAI release")) ≠ [].
Proof.
  apply (proj2 (contains_ai_keywords_extract cyrillic_lower)). by_computation.
Defined.

Lemma is_english_or_russian_ascii_witness :
  is_english_or_russian cyrillic_lower cyrillic_alnum nbsp_space
    (Some (py "GPT-5 is out!")) = true.
Proof.
  apply (proj2 (is_english_or_russian_ascii cyrillic_lower cyrillic_alnum nbsp_space)).
  - decide_by_computation.
  - vm_compute. lia.
Defined.

(** What [process_news] returns for the two dated items. *)
Definition sample_processed : list NewsItem :=
  [ set_relevance_score news_dated_later 20;
    set_relevance_score news_with_utc_date 30 ].

Lemma process_news_order_witness :
  sample_processed
    ≡ₚ survivors cyrillic_lower cyrillic_alnum nbsp_space
         [news_with_utc_date; news_dated_later]
  ∧ StronglySorted
      (λ a b, (date_instant b < date_instant a)%Z
              ∨ (date_instant b = date_instant a
                 ∧ default 0 (relevance_score b) ≤ default 0 (relevance_score a))%Z)
      sample_processed
  ∧ Forall (λ n, ∃ score, relevance_score n = Some score ∧ (10 ≤ score)%Z)
      sample_processed.
Proof.
  apply (process_news_order cyrillic_lower cyrillic_alnum nbsp_space
           [news_with_utc_date; news_dated_later] sample_processed).
  by_computation.
Defined.

Lemma split_message_bound_witness :
  Forall (λ part, (len part ≤ 5)%Z) (split_message nbsp_space sample_message 5).
Proof.
  apply (split_message_bound nbsp_space sample_message 5). decide_by_computation.
Defined.

Lemma send_message_texts_spec_witness :
  send_message_texts nbsp_space sample_message = [sample_message].
Proof.
  apply (proj1 (send_message_texts_spec nbsp_space sample_message)).
  vm_compute. discriminate.
Defined.

Lemma get_content_type_glyph_witness :
  get_content_type cyrillic_lower
    {| selftext := Some (py "Try it"); post_url := Some (py "https://i.redd.it/x.png") |}
  = py "text".
Proof.
  apply (proj2 (proj2 (get_content_type_glyph cyrillic_lower))
           84 (py "ry it") (Some (py "https://i.redd.it/x.png"))).
  vm_compute. discriminate.
Defined.

Lemma validate_config_spec_witness :
  validate_config cyrillic_lower sample_env = Returned true.
Proof.
  apply (proj2 (proj1 (validate_config_spec cyrillic_lower sample_env))).
  unfold config_ok. repeat split; try by_computation.
  all: vm_compute; discriminate.
Defined.

Lemma parse_duration_hms_witness :
  parse_duration ascii_digits_only (Some (py "PT" ++ hms_text [1] [2] [3]))
  = 3723%Z.
Proof.
  etrans.
  - apply (parse_duration_hms ascii_digits_only [1] [2] [3]);
      (decide_by_computation || discriminate).
  - reflexivity.
Defined.

Lemma parse_duration_days_left_out_witness :
  parse_duration ascii_digits_only
    (Some (py "P" ++ decimal [2] ++ py "DT" ++ hms_text [1] [2] [3]))
  = 3723%Z.
Proof.
  etrans.
  - apply (proj1 (proj2 (proj2 (parse_duration_days_left_out ascii_digits_only)))
             [2] [1] [2] [3]); (decide_by_computation || discriminate).
  - reflexivity.
Defined.

(** Seconds written with 4301 digits, all of them zero: [int] refuses the
    string and the duration is 0, the hour that was read with it. *)
Example parse_duration_too_many_digits :
  parse_duration ascii_digits_only
    (Some (py "PT1H" ++ decimal (repeat 0 4301) ++ py "S")) = 0%Z.
Proof. vm_compute. reflexivity. Qed.

Lemma filter_news_by_relevance_thresholds_witness :
  filter_news_by_relevance cyrillic_lower cyrillic_alnum nbsp_space
    [news_with_utc_date; news_dated_later] 101 = [].
Proof.
  apply (proj1 (filter_news_by_relevance_thresholds cyrillic_lower cyrillic_alnum
                  nbsp_space [news_with_utc_date; news_dated_later] 101)).
  lia.
Defined.
